(** * The UCI front end of Stockfish.js ([src/uci.cpp])

    A shallow embedding of the command interpreter and of the move-notation
    codec, together with the properties its specification states.

    Everything [uci.cpp] obtains from other translation units (the board,
    the legal move generator, the option table, the search threads) enters
    through the type classes [ValueConstants], [PositionAPI] and
    [Collaborators]: the functions of this file are written against those
    interfaces, so every theorem holds for whatever engine implements them. *)

From Stdlib Require Import ZArith NArith List String Ascii Bool Lia.
From Stdlib Require Import Numbers.DecimalString.
From Equations Require Import Equations.
From Equations.Prop Require Import Logic.
Import ListNotations.

Open Scope string_scope.
Open Scope Z_scope.

(** ** Characters and strings *)

(** A [char] computed by integer arithmetic, as in ['a' + file_of(s)]. *)
Definition ascii_of_Z (z : Z) : ascii := ascii_of_N (Z.to_N (z mod 256)).

Definition Z_of_ascii (c : ascii) : Z := Z.of_N (N_of_ascii c).

(** [tolower] of the C locale: only the letters A to Z change. *)
Definition tolower (c : ascii) : ascii :=
  let n := Z_of_ascii c in
  if (65 <=? n) && (n <=? 90) then ascii_of_Z (n + 32) else c.

(** [isspace] of the C locale: space, \t, \n, \v, \f and \r. *)
Definition isspace (c : ascii) : bool :=
  let n := Z_of_ascii c in
  (n =? 32) || ((9 <=? n) && (n <=? 13)).

(** [s[n]] for an index the caller keeps in range. *)
Definition char_at (s : string) (n : nat) : ascii :=
  match String.get n s with
  | Some c => c
  | None => zero
  end.

(** [s[n] = c], an assignment through [operator[]]. *)
Fixpoint set_char (s : string) (n : nat) (c : ascii) : string :=
  match s, n with
  | EmptyString, _ => EmptyString
  | String _ s', O => String c s'
  | String a s', S n' => String a (set_char s' n' c)
  end.

(** [ss << i] for an [int] in the default (decimal) format. *)
Definition string_of_int (z : Z) : string :=
  NilZero.string_of_int (Z.to_int z).

Definition newline : ascii := ascii_of_Z 10.

Definition endl : string := String newline "".

(** ** Squares, pieces and moves *)

(** Modelled from the spec: [types.h] is not part of the sources at hand.
    A square is an integer coordinate decomposable into a file (a to h,
    numbered from [FILE_A = 0]) and a rank (1 to 8, numbered from
    [RANK_1 = 0]); the sixty-four squares are numbered rank by rank, so that
    [file_of] reads the three low bits and [rank_of] the three bits above. *)
Definition Square := Z.

Definition File := Z.

Definition Rank := Z.

Definition FILE_A : File := 0.

Definition FILE_C : File := 2.

Definition FILE_G : File := 6.

Definition RANK_1 : Rank := 0.

Definition file_of (s : Square) : File := Z.land s 7.

Definition rank_of (s : Square) : Rank := Z.shiftr s 3.

Definition make_square (f : File) (r : Rank) : Square :=
  Z.lor (Z.shiftl r 3) f.

Definition is_ok (s : Square) : bool := (0 <=? s) && (s <? 64).

Inductive Color := WHITE | BLACK.

(** The order of the constructors is the one the tables [" PNBRQK"] and
    [" pnbrqk"] of [uci.cpp] are indexed by. *)
Inductive PieceType :=
  NO_PIECE_TYPE | PAWN | KNIGHT | BISHOP | ROOK | QUEEN | KING.

Definition PieceType_index (pt : PieceType) : nat :=
  match pt with
  | NO_PIECE_TYPE => 0
  | PAWN => 1
  | KNIGHT => 2
  | BISHOP => 3
  | ROOK => 4
  | QUEEN => 5
  | KING => 6
  end.

Definition PieceType_eqb (a b : PieceType) : bool :=
  Nat.eqb (PieceType_index a) (PieceType_index b).

(** Modelled from the spec: a piece is a colour and a piece type, or no piece
    at all; [type_of(Piece)] of [types.h] is [type_of_piece]. *)
Inductive Piece := NO_PIECE | make_piece (c : Color) (pt : PieceType).

Definition type_of_piece (pc : Piece) : PieceType :=
  match pc with
  | NO_PIECE => NO_PIECE_TYPE
  | make_piece _ pt => pt
  end.

Inductive MoveType := NORMAL | PROMOTION | ENPASSANT | CASTLING.

Definition MoveType_eqb (a b : MoveType) : bool :=
  match a, b with
  | NORMAL, NORMAL | PROMOTION, PROMOTION
  | ENPASSANT, ENPASSANT | CASTLING, CASTLING => true
  | _, _ => false
  end.

(** Modelled from the spec: a move identifies a from-square, a to-square, a
    move-kind tag and (for promotions) a target piece type; [MOVE_NONE] and
    [MOVE_NULL] are sentinels distinct from all playable moves, and equality
    is by value.  The accessors of [types.h] are total; on the two sentinels
    they return a square that no caller in [uci.cpp] looks at. *)
Inductive Move :=
| MOVE_NONE
| MOVE_NULL
| make (ty : MoveType) (from to : Square) (pt : PieceType).

Definition from_sq (m : Move) : Square :=
  match m with
  | make _ from _ _ => from
  | _ => 0
  end.

Definition to_sq (m : Move) : Square :=
  match m with
  | make _ _ to _ => to
  | _ => 0
  end.

Definition type_of (m : Move) : MoveType :=
  match m with
  | make ty _ _ _ => ty
  | _ => NORMAL
  end.

Definition promotion_type (m : Move) : PieceType :=
  match m with
  | make _ _ _ pt => pt
  | _ => NO_PIECE_TYPE
  end.

(** [make_move(from, to)]: the normal move between two squares. *)
Definition make_move (from to : Square) : Move :=
  make NORMAL from to NO_PIECE_TYPE.

Definition PieceType_eq_dec (a b : PieceType) : {a = b} + {a <> b}.
Proof. decide equality. Defined.

Definition MoveType_eq_dec (a b : MoveType) : {a = b} + {a <> b}.
Proof. decide equality. Defined.

Definition Move_eq_dec (a b : Move) : {a = b} + {a <> b}.
Proof.
  decide equality;
    auto using Z.eq_dec, PieceType_eq_dec, MoveType_eq_dec.
Defined.

(** [m == n] on moves. *)
Definition Move_eqb (a b : Move) : bool :=
  if Move_eq_dec a b then true else false.

(** ** Scores *)

Definition Value := Z.

(** The three enumerators of [types.h] that [format_value] reads. *)
Class ValueConstants := {
  VALUE_MATE : Value;
  VALUE_MATE_IN_MAX_PLY : Value;
  PawnValueEg : Value
}.

(** [format_value]: [cp <x>] or [mate <y>], then the bound marker.  The
    divisions are those of C++ on [int], which truncate towards zero. *)
Definition format_value `{ValueConstants} (v alpha beta : Value) : string :=
  let ss :=
    if Z.abs v <? VALUE_MATE_IN_MAX_PLY
    then "cp " ++ string_of_int (Z.quot (v * 100) PawnValueEg)
    else "mate " ++
         string_of_int
           (Z.quot (if v >? 0 then VALUE_MATE - v + 1 else - VALUE_MATE - v) 2)
  in
  ss ++ (if v >=? beta then " lowerbound"
         else if v <=? alpha then " upperbound"
         else "").

(** ** Coordinate notation *)

(** [format_square]: file letter, then rank digit. *)
Definition format_square (s : Square) : string :=
  String (ascii_of_Z (Z_of_ascii "a" + file_of s))
    (String (ascii_of_Z (Z_of_ascii "1" + rank_of s)) "").

(** [format_move]: coordinate notation; a castling move, stored as "king
    captures rook", is printed with the king's landing square unless
    [chess960] is set. *)
Definition format_move (m : Move) (chess960 : bool) : string :=
  let from := from_sq m in
  let to := to_sq m in
  if Move_eqb m MOVE_NONE then "(none)"
  else if Move_eqb m MOVE_NULL then "0000"
  else
    let to :=
      if MoveType_eqb (type_of m) CASTLING && negb chess960
      then make_square (if to >? from then FILE_G else FILE_C) (rank_of from)
      else to in
    let move := format_square from ++ format_square to in
    if MoveType_eqb (type_of m) PROMOTION
    then move ++ String (char_at " pnbrqk" (PieceType_index (promotion_type m))) ""
    else move.

(** ** Bitboards *)

(** Modelled from the spec: [bitboard.h] is not part of the sources at hand.
    The specification speaks of sets of pieces and of pieces that share a
    file or a rank; a [Bitboard] is such a set of squares, a 64-bit number
    with bit [s] standing for square [s].  [uci.cpp] needs the one-square
    board, the boards of the file and of the rank of a square, and
    [pop_lsb], which finds and clears the least significant bit of a
    non-zero bitboard. *)
Definition Bitboard := N.

Definition SquareBB (s : Square) : Bitboard := N.shiftl 1 (Z.to_N s).

Definition FileABB : Bitboard := 0x0101010101010101%N.

Definition Rank1BB : Bitboard := 0xFF%N.

Definition file_bb (s : Square) : Bitboard :=
  N.shiftl FileABB (Z.to_N (file_of s)).

Definition rank_bb (s : Square) : Bitboard :=
  N.shiftl Rank1BB (8 * Z.to_N (rank_of s)).

Fixpoint pop_lsb_pos (p : positive) : N * N :=
  match p with
  | xH => (0%N, 0%N)
  | xI q => (0%N, Npos (xO q))
  | xO q => let (i, r) := pop_lsb_pos q in (N.succ i, N.double r)
  end.

(** [pop_lsb(&b)]: the square of the lowest set bit, and [b] without it. *)
Definition pop_lsb (b : Bitboard) : Square * Bitboard :=
  match b with
  | N0 => (0, 0%N)
  | Npos p => let (i, r) := pop_lsb_pos p in (Z.of_N i, r)
  end.

(** ** The position, as [uci.cpp] sees it *)

(** The members of [Position] (and [MoveList<LEGAL>]) that [uci.cpp] calls.
    Members that mutate the position in C++ return the new position here.
    [MoveList_LEGAL pos] is the array of generated moves (the range
    [mlist, last)); [StateInfo] is what [do_move] fills in. *)
Class PositionAPI := {
  Position : Type;
  StateInfo : Type;
  Position_set : string -> bool -> Position;
  is_chess960 : Position -> bool;
  MoveList_LEGAL : Position -> list Move;
  do_move : Position -> Move -> Position;
  undo_move : Position -> Move -> Position;
  st : Position -> StateInfo;
  flip : Position -> Position;
  side_to_move : Position -> Color;
  piece_on : Position -> Square -> Piece;
  attacks_from : Position -> Piece -> Square -> Bitboard;
  pieces : Position -> Color -> PieceType -> Bitboard;
  pinned_pieces : Position -> Color -> Bitboard;
  legal : Position -> Move -> Bitboard -> bool;
  capture : Position -> Move -> bool;
  gives_check : Position -> Move -> bool;
  checkers : Position -> Bitboard;
  key : Position -> N;
  material_key : Position -> N;
  pawn_key : Position -> N;
  pretty : Position -> string
}.

(** The loop of [to_move]: [for (MoveList<LEGAL> it(pos); *it; ++it)].  The
    array ends with a [MOVE_NONE] sentinel, which is what [*it] tests. *)
Fixpoint to_move_scan (it : list Move) (str : string) (chess960 : bool) : Move :=
  match it with
  | [] => MOVE_NONE
  | m :: it' =>
      if Move_eqb m MOVE_NONE then MOVE_NONE
      else if String.eqb str (format_move m chess960) then m
      else to_move_scan it' str chess960
  end.

(** [to_move]: the string is taken by reference, so the (possibly modified)
    string is returned next to the move. *)
Definition to_move `{PositionAPI} (pos : Position) (str : string)
  : Move * string :=
  let str :=
    if Nat.eqb (String.length str) 5
    then set_char str 4 (tolower (char_at str 4))
    else str in
  (to_move_scan (MoveList_LEGAL pos) str (is_chess960 pos), str).

(** ** Short algebraic notation *)

Definition PieceToChar (c : Color) : string :=
  match c with
  | WHITE => " PNBRQK"
  | BLACK => " pnbrqk"
  end.

(** The number of squares of a bitboard: what the loop below counts down. *)
Fixpoint popcount_pos (p : positive) : nat :=
  match p with
  | xH => 1
  | xO q => popcount_pos q
  | xI q => S (popcount_pos q)
  end.

Definition popcount (b : Bitboard) : nat :=
  match b with
  | N0 => 0
  | Npos p => popcount_pos p
  end.

(** The [while (b)] loop of [move_to_san]: every square of [b] whose move to
    [to] is not legal is taken out of [others]. *)
Equations? san_prune (is_legal : Square -> bool) (b others : Bitboard)
  : Bitboard by wf (popcount b) lt :=
  san_prune is_legal N0 others := others;
  san_prune is_legal (Npos p) others :=
    san_prune is_legal (snd (pop_lsb (Npos p)))
      (if is_legal (fst (pop_lsb (Npos p)))
       then others
       else N.lxor others (SquareBB (fst (pop_lsb (Npos p))))).
Proof.
  assert (G : forall q, S (popcount (snd (pop_lsb_pos q))) = popcount_pos q).
  { induction q as [q IH | q IH |]; cbn [pop_lsb_pos popcount_pos];
      [reflexivity | | reflexivity].
    destruct (pop_lsb_pos q) as [i r]. cbn [snd] in *. rewrite <- IH.
    now destruct r. }
  specialize (G p). unfold pop_lsb.
  destruct (pop_lsb_pos p) as [i r]. cbn [snd popcount] in *. lia.
Qed.

(** The pieces of the mover's type and colour, the mover apart, that can
    legally go to the destination: [others] after the loop. *)
Definition san_others `{PositionAPI} (pos : Position) (m : Move) : Bitboard :=
  let us := side_to_move pos in
  let from := from_sq m in
  let to := to_sq m in
  let pc := piece_on pos from in
  let pt := type_of_piece pc in
  let b := N.lxor (N.land (attacks_from pos pc to) (pieces pos us pt))
             (SquareBB from) in
  san_prune (fun s => legal pos (make_move s to) (pinned_pieces pos us)) b b.

Definition file_char (s : Square) : ascii :=
  ascii_of_Z (file_of s - FILE_A + Z_of_ascii "a").

Definition rank_char (s : Square) : ascii :=
  ascii_of_Z (rank_of s - RANK_1 + Z_of_ascii "1").

(** The text [move_to_san] has built when it reaches the check test. *)
Definition san_text `{PositionAPI} (pos : Position) (m : Move) : string :=
  let from := from_sq m in
  let to := to_sq m in
  let pc := piece_on pos from in
  let pt := type_of_piece pc in
  if MoveType_eqb (type_of m) CASTLING
  then (if to >? from then "O-O" else "O-O-O")
  else
    let san :=
      if negb (PieceType_eqb pt PAWN)
      then
        let san := String (char_at (PieceToChar WHITE) (PieceType_index pt)) "" in
        let others := san_others pos m in
        if N.eqb others 0 then san
        else if N.eqb (N.land others (file_bb from)) 0
        then san ++ String (file_char from) ""
        else if N.eqb (N.land others (rank_bb from)) 0
        then san ++ String (rank_char from) ""
        else san ++ format_square from
      else if capture pos m then String (file_char from) ""
      else "" in
    let san := if capture pos m then san ++ "x" else san in
    let san := san ++ format_square to in
    if MoveType_eqb (type_of m) PROMOTION
    then san ++ "=" ++
         String (char_at (PieceToChar WHITE) (PieceType_index (promotion_type m))) ""
    else san.

(** [move_to_san]: the position is taken by reference and is moved on and
    back for the mate test, so the position it is left in is returned next
    to the text.  [assert(MoveList<LEGAL>(pos).contains(m))] is the
    precondition that [m] is legal in [pos]. *)
Definition move_to_san `{PositionAPI} (pos : Position) (m : Move)
  : string * Position :=
  if Move_eqb m MOVE_NONE then ("(none)", pos)
  else if Move_eqb m MOVE_NULL then ("(null)", pos)
  else
    let san := san_text pos m in
    if gives_check pos m
    then
      let pos1 := do_move pos m in
      let san :=
        san ++ (if Nat.eqb (List.length (MoveList_LEGAL pos1)) 0
                then "#" else "+") in
      (san, undo_move pos1 m)
    else (san, pos).

(** ** Input string streams *)

(** An [istringstream]: the characters not yet read, and the fail state.
    A stream whose last read ran into the end of the text has [eofbit] set;
    for the reads of [uci.cpp] that is the same as an empty [rdbuf], because
    the next read then finds nothing and sets [failbit]. *)
Record istringstream := mk_stream { rdbuf : string; fail : bool }.

Definition istringstream_of (text : string) : istringstream :=
  mk_stream text false.

Definition failed : istringstream := mk_stream "" true.

(** Skipping of leading white space, which every formatted read starts with. *)
Fixpoint skipws (s : string) : string :=
  match s with
  | String c s' => if isspace c then skipws s' else s
  | EmptyString => EmptyString
  end.

(** The longest prefix without white space, and what follows it. *)
Fixpoint read_word (s : string) : string * string :=
  match s with
  | String c s' =>
      if isspace c then (EmptyString, s)
      else let (w, r) := read_word s' in (String c w, r)
  | EmptyString => (EmptyString, EmptyString)
  end.

(** [is >> token] for a [std::string]: [None] when the read fails (the stream
    has failed before, or only white space is left), in which case the target
    keeps its value. *)
Definition extract_string (inp : istringstream) : option string * istringstream :=
  if fail inp then (None, inp)
  else
    match skipws (rdbuf inp) with
    | EmptyString => (None, failed)
    | b => let (w, r) := read_word b in (Some w, mk_stream r false)
    end.

Definition is_digit (c : ascii) : bool :=
  let n := Z_of_ascii c in (48 <=? n) && (n <=? 57).

(** The longest prefix of decimal digits, and what follows it. *)
Fixpoint read_digits (s : string) : string * string :=
  match s with
  | String c s' =>
      if is_digit c
      then let (d, r) := read_digits s' in (String c d, r)
      else (EmptyString, s)
  | EmptyString => (EmptyString, EmptyString)
  end.

Fixpoint decimal_value (acc : Z) (digits : string) : Z :=
  match digits with
  | String c d => decimal_value (10 * acc + (Z_of_ascii c - 48)) d
  | EmptyString => acc
  end.

Definition INT_MAX : Z := 2147483647.

Definition INT_MIN : Z := -2147483648.

(** [is >> n] for an [int]: an optional sign and decimal digits are read.
    The first component is the value stored into [n], if any: nothing is
    stored when the stream has failed before or holds only white space;
    a text that does not start with a number stores 0 and one out of range
    stores the nearest [int] (the rule of C++11), and both set [failbit]. *)
Definition extract_int (inp : istringstream) : option Z * istringstream :=
  if fail inp then (None, inp)
  else
    match skipws (rdbuf inp) with
    | EmptyString => (None, failed)
    | String c r =>
        let negative := Ascii.eqb c "-" in
        let b := if negative || Ascii.eqb c "+" then r else String c r in
        let (digits, rest) := read_digits b in
        match digits with
        | EmptyString => (Some 0, mk_stream rest true)
        | _ =>
            let v := if negative then - decimal_value 0 digits
                     else decimal_value 0 digits in
            if v >? INT_MAX then (Some INT_MAX, mk_stream rest true)
            else if v <? INT_MIN then (Some INT_MIN, mk_stream rest true)
            else (Some v, mk_stream rest false)
        end
    end.

Lemma skipws_length s : (String.length (skipws s) <= String.length s)%nat.
Proof.
  induction s as [|c s IH]; simpl; [lia|].
  destruct (isspace c); simpl; lia.
Qed.

Lemma read_word_length s :
  (String.length (snd (read_word s)) <= String.length s)%nat.
Proof.
  induction s as [|c s IH]; simpl; [lia|].
  destruct (isspace c); simpl; [lia|].
  destruct (read_word s); simpl in *; lia.
Qed.

Lemma read_word_progress c s :
  isspace c = false ->
  (String.length (snd (read_word (String c s))) < String.length (String c s))%nat.
Proof.
  intros Hc. simpl. rewrite Hc.
  pose proof (read_word_length s). destruct (read_word s); simpl in *; lia.
Qed.

Lemma skipws_head s c r : skipws s = String c r -> isspace c = false.
Proof.
  induction s as [|a s IH]; simpl; [discriminate|].
  destruct (isspace a) eqn:E; [exact IH|].
  intros H. injection H as -> _. exact E.
Qed.

(** A successful [is >> token] consumes at least one character. *)
Lemma extract_string_progress inp token inp' :
  extract_string inp = (Some token, inp') ->
  (String.length (rdbuf inp') < String.length (rdbuf inp))%nat.
Proof.
  unfold extract_string. destruct (fail inp); [discriminate|].
  pose proof (skipws_length (rdbuf inp)) as Hs.
  destruct (skipws (rdbuf inp)) as [|c r] eqn:E; [discriminate|].
  pose proof (read_word_progress c r (skipws_head _ _ _ E)) as Hp.
  destruct (read_word (String c r)) as [w r'] eqn:Ew.
  intros H. injection H as _ <-. simpl in *. lia.
Qed.

(** [is >> token] never puts characters back. *)
Lemma extract_string_length inp :
  (String.length (rdbuf (snd (extract_string inp)))
   <= String.length (rdbuf inp))%nat.
Proof.
  destruct (extract_string inp) as [[token|] inp1] eqn:E.
  - apply extract_string_progress in E. simpl. lia.
  - revert E. unfold extract_string. destruct (fail inp).
    + intros [= <-]. simpl. lia.
    + destruct (skipws (rdbuf inp)); [|destruct (read_word _); discriminate].
      intros [= <-]. simpl. lia.
Qed.

Lemma read_digits_length s :
  (String.length (snd (read_digits s)) <= String.length s)%nat.
Proof.
  induction s as [|c s IH]; simpl; [lia|].
  destruct (is_digit c); simpl; [|lia].
  destruct (read_digits s); simpl in *; lia.
Qed.

(** [is >> n] never puts characters back. *)
Lemma extract_int_length inp :
  (String.length (rdbuf (snd (extract_int inp))) <= String.length (rdbuf inp))%nat.
Proof.
  unfold extract_int. destruct (fail inp); [simpl; lia|].
  pose proof (skipws_length (rdbuf inp)) as Hs.
  destruct (skipws (rdbuf inp)) as [|c r] eqn:E; [simpl; lia|].
  set (b := if (Ascii.eqb c "-" || Ascii.eqb c "+")%bool then r else String c r).
  assert (Hb : (String.length b <= String.length (String c r))%nat)
    by (subst b; destruct (Ascii.eqb c "-" || Ascii.eqb c "+")%bool; simpl; lia).
  pose proof (read_digits_length b) as Hd.
  destruct (read_digits b) as [digits rest]; simpl in Hd.
  destruct digits; [simpl in *; lia|].
  match goal with |- context [Z.gtb ?v INT_MAX] => destruct (Z.gtb v INT_MAX) end;
    [simpl in *; lia|].
  match goal with |- context [Z.ltb ?v INT_MIN] => destruct (Z.ltb v INT_MIN) end;
    simpl in *; lia.
Qed.

(** [while (is >> token) a = body(a, token);] *)
Equations? while_token {A : Type} (body : A -> string -> A)
  (inp : istringstream) (a : A) : A * istringstream
  by wf (String.length (rdbuf inp)) lt :=
  while_token body inp a with inspect (extract_string inp) := {
    | exist _ (Some token, inp1) e => while_token body inp1 (body a token)
    | exist _ (None, inp1) _ => (a, inp1) }.
Proof. eapply extract_string_progress; eassumption. Qed.

(** [while (is >> token && token != stop) a = body(a, token);] *)
Equations? while_token_ne {A : Type} (stop : string) (body : A -> string -> A)
  (inp : istringstream) (a : A) : A * istringstream
  by wf (String.length (rdbuf inp)) lt :=
  while_token_ne stop body inp a with inspect (extract_string inp) := {
    | exist _ (Some token, inp1) e =>
        if String.eqb token stop then (a, inp1)
        else while_token_ne stop body inp1 (body a token)
    | exist _ (None, inp1) _ => (a, inp1) }.
Proof. eapply extract_string_progress; eassumption. Qed.

(** ** Search limits *)

(** Modelled from the spec: [search.h] is not part of the sources at hand.
    [LimitsType] accumulates the optional constraints of a search; its
    constructor leaves every field unset, which is 0 for the numbers, [false]
    for the two flags and the empty list of root moves. *)
Record LimitsType := mk_limits {
  searchmoves : list Move;
  time_WHITE : Z;
  time_BLACK : Z;
  inc_WHITE : Z;
  inc_BLACK : Z;
  movestogo : Z;
  depth : Z;
  nodes : Z;
  movetime : Z;
  mate : Z;
  infinite : bool;
  ponder : bool
}.

Definition LimitsType_init : LimitsType :=
  mk_limits [] 0 0 0 0 0 0 0 0 0 false false.

(** The numeric members a [go] keyword can name. *)
Inductive LimitsField :=
| f_time_WHITE | f_time_BLACK | f_inc_WHITE | f_inc_BLACK
| f_movestogo | f_depth | f_nodes | f_movetime | f_mate.

Definition get_field (f : LimitsField) (l : LimitsType) : Z :=
  match f with
  | f_time_WHITE => time_WHITE l
  | f_time_BLACK => time_BLACK l
  | f_inc_WHITE => inc_WHITE l
  | f_inc_BLACK => inc_BLACK l
  | f_movestogo => movestogo l
  | f_depth => depth l
  | f_nodes => nodes l
  | f_movetime => movetime l
  | f_mate => mate l
  end.

Definition set_field (f : LimitsField) (v : Z) (l : LimitsType) : LimitsType :=
  let (sm, tw, tb, iw, ib, mtg, d, n, mt, ma, inf, po) := l in
  match f with
  | f_time_WHITE => mk_limits sm v tb iw ib mtg d n mt ma inf po
  | f_time_BLACK => mk_limits sm tw v iw ib mtg d n mt ma inf po
  | f_inc_WHITE => mk_limits sm tw tb v ib mtg d n mt ma inf po
  | f_inc_BLACK => mk_limits sm tw tb iw v mtg d n mt ma inf po
  | f_movestogo => mk_limits sm tw tb iw ib v d n mt ma inf po
  | f_depth => mk_limits sm tw tb iw ib mtg v n mt ma inf po
  | f_nodes => mk_limits sm tw tb iw ib mtg d v mt ma inf po
  | f_movetime => mk_limits sm tw tb iw ib mtg d n v ma inf po
  | f_mate => mk_limits sm tw tb iw ib mtg d n mt v inf po
  end.

Definition set_infinite (b : bool) (l : LimitsType) : LimitsType :=
  let (sm, tw, tb, iw, ib, mtg, d, n, mt, ma, _, po) := l in
  mk_limits sm tw tb iw ib mtg d n mt ma b po.

Definition set_ponder (b : bool) (l : LimitsType) : LimitsType :=
  let (sm, tw, tb, iw, ib, mtg, d, n, mt, ma, inf, _) := l in
  mk_limits sm tw tb iw ib mtg d n mt ma inf b.

(** [limits.searchmoves.push_back(m)] *)
Definition push_back_searchmove (m : Move) (l : LimitsType) : LimitsType :=
  let (sm, tw, tb, iw, ib, mtg, d, n, mt, ma, inf, po) := l in
  mk_limits (sm ++ [m])%list tw tb iw ib mtg d n mt ma inf po.

(** The keyword of [go] that introduces a number, if [token] is one. *)
Definition numeric_keyword (token : string) : option LimitsField :=
  if String.eqb token "wtime" then Some f_time_WHITE
  else if String.eqb token "btime" then Some f_time_BLACK
  else if String.eqb token "winc" then Some f_inc_WHITE
  else if String.eqb token "binc" then Some f_inc_BLACK
  else if String.eqb token "movestogo" then Some f_movestogo
  else if String.eqb token "depth" then Some f_depth
  else if String.eqb token "nodes" then Some f_nodes
  else if String.eqb token "movetime" then Some f_movetime
  else if String.eqb token "mate" then Some f_mate
  else None.

(** [is >> limits.field] *)
Definition extract_field (f : LimitsField) (inp : istringstream)
  (limits : LimitsType) : LimitsType * istringstream :=
  match extract_int inp with
  | (Some v, inp1) => (set_field f v limits, inp1)
  | (None, inp1) => (limits, inp1)
  end.

(** The body of the [while (is >> token)] loop of [go]. *)
Definition go_token `{PositionAPI} (pos : Position) (token : string)
  (inp : istringstream) (limits : LimitsType) : LimitsType * istringstream :=
  if String.eqb token "searchmoves"
  then while_token
         (fun l token => push_back_searchmove (fst (to_move pos token)) l)
         inp limits
  else
    match numeric_keyword token with
    | Some f => extract_field f inp limits
    | None =>
        if String.eqb token "infinite" then (set_infinite true limits, inp)
        else if String.eqb token "ponder" then (set_ponder true limits, inp)
        else (limits, inp)
    end.

Lemma while_token_length {A : Type} (body : A -> string -> A) inp a :
  (String.length (rdbuf (snd (while_token body inp a)))
   <= String.length (rdbuf inp))%nat.
Proof.
  funelim (while_token body inp a).
  - pose proof (extract_string_progress _ _ _ e). lia.
  - pose proof (extract_string_length inp) as L. rewrite e in L. exact L.
Qed.

Lemma go_token_length `{PositionAPI} (pos : Position) token inp limits :
  (String.length (rdbuf (snd (go_token pos token inp limits)))
   <= String.length (rdbuf inp))%nat.
Proof.
  unfold go_token. destruct (String.eqb token "searchmoves").
  - apply while_token_length.
  - destruct (numeric_keyword token) as [f|].
    + unfold extract_field. pose proof (extract_int_length inp).
      destruct (extract_int inp) as [[v|] inp1]; simpl in *; lia.
    + destruct (String.eqb token "infinite"); [simpl; lia|].
      destruct (String.eqb token "ponder"); simpl; lia.
Qed.

(** The [while (is >> token)] loop of [go]. *)
Equations? go_loop `{PositionAPI} (pos : Position) (inp : istringstream)
  (limits : LimitsType) : LimitsType * istringstream
  by wf (String.length (rdbuf inp)) lt :=
  go_loop pos inp limits with inspect (extract_string inp) := {
    | exist _ (Some token, inp1) e =>
        go_loop pos (snd (go_token pos token inp1 limits))
          (fst (go_token pos token inp1 limits))
    | exist _ (None, inp1) _ => (limits, inp1) }.
Proof.
  pose proof (extract_string_progress _ _ _ e).
  pose proof (go_token_length pos token inp1 limits). lia.
Qed.

(** ** The other collaborators of [uci.cpp] *)

(** The option table ([Options], of [ucioption.cpp]), [engine_info] and
    [Eval::trace].  [Options_assign] is [Options[name] = value], with whatever
    the option's on-change handler does to the table; [Options_int] is the
    conversion of an option to [int]; [Options_print] is [os << Options]. *)
Class Collaborators `{PositionAPI} := {
  OptionsMap : Type;
  Options_count : OptionsMap -> string -> bool;
  Options_assign : OptionsMap -> string -> string -> OptionsMap;
  Options_int : OptionsMap -> string -> Z;
  Options_print : OptionsMap -> string;
  engine_info : bool -> string;
  Eval_trace : Position -> string
}.

(** The calls [uci.cpp] makes into the search, the hash table and the
    benchmark, in the order they are made. *)
Inductive Event `{PositionAPI} :=
| Threads_start_thinking (pos : Position) (limits : LimitsType)
    (states : option (list StateInfo))
| Threads_main_notify_one
| TT_clear
| benchmark (pos : Position) (args : option istringstream).

Arguments Threads_start_thinking {_} pos limits states.
Arguments Threads_main_notify_one {_}.
Arguments TT_clear {_}.
Arguments benchmark {_} pos args.

(** What [uci.cpp] reads and writes between two command lines: the root
    position [pos], the option table, the stack [SetupStates] (a null pointer
    is [None]; the top of the stack is the head of the list), the search
    signals and the [ponder] limit shared with the search, the text written
    to [std::cout], and the calls made so far. *)
Record State `{Collaborators} := mk_state {
  pos : Position;
  Options : OptionsMap;
  SetupStates : option (list StateInfo);
  Signals_stop : bool;
  Signals_stopOnPonderhit : bool;
  Limits_ponder : bool;
  cout : string;
  calls : list Event
}.

Arguments mk_state {_ _} pos Options SetupStates Signals_stop
  Signals_stopOnPonderhit Limits_ponder cout calls.

Definition set_pos `{Collaborators} (p : Position)
  (states : option (list StateInfo)) (s : State) : State :=
  mk_state p (Options s) states (Signals_stop s) (Signals_stopOnPonderhit s)
    (Limits_ponder s) (cout s) (calls s).

Definition set_Options `{Collaborators} (o : OptionsMap) (s : State) : State :=
  mk_state (pos s) o (SetupStates s) (Signals_stop s)
    (Signals_stopOnPonderhit s) (Limits_ponder s) (cout s) (calls s).

Definition set_SetupStates `{Collaborators} (states : option (list StateInfo))
  (s : State) : State :=
  mk_state (pos s) (Options s) states (Signals_stop s)
    (Signals_stopOnPonderhit s) (Limits_ponder s) (cout s) (calls s).

Definition set_Signals_stop `{Collaborators} (b : bool) (s : State) : State :=
  mk_state (pos s) (Options s) (SetupStates s) b
    (Signals_stopOnPonderhit s) (Limits_ponder s) (cout s) (calls s).

Definition set_Limits_ponder `{Collaborators} (b : bool) (s : State) : State :=
  mk_state (pos s) (Options s) (SetupStates s) (Signals_stop s)
    (Signals_stopOnPonderhit s) b (cout s) (calls s).

(** [sync_cout << text << sync_endl] *)
Definition print `{Collaborators} (text : string) (s : State) : State :=
  mk_state (pos s) (Options s) (SetupStates s) (Signals_stop s)
    (Signals_stopOnPonderhit s) (Limits_ponder s) (cout s ++ text ++ endl)
    (calls s).

Definition call `{Collaborators} (e : Event) (s : State) : State :=
  mk_state (pos s) (Options s) (SetupStates s) (Signals_stop s)
    (Signals_stopOnPonderhit s) (Limits_ponder s) (cout s)
    (calls s ++ [e])%list.

(** ** The commands *)

Definition StartFEN : string :=
  "rnbqkbnr/pppppppp/8/8/8/8/PPPPPPPP/RNBQKBNR w KQkq - 0 1".

(** The value of a token variable after [is >> token]: a failed read leaves
    the (empty) string it was declared with. *)
Definition token_of (o : option string) : string :=
  match o with
  | Some t => t
  | None => ""
  end.

(** The loop of [position] that makes the moves of the move list. *)
Equations? position_moves `{PositionAPI} (pos : Position)
  (states : list StateInfo) (inp : istringstream)
  : Position * list StateInfo * istringstream
  by wf (String.length (rdbuf inp)) lt :=
  position_moves pos states inp with inspect (extract_string inp) := {
    | exist _ (Some token, inp1) e =>
        if Move_eqb (fst (to_move pos token)) MOVE_NONE
        then (pos, states, inp1)
        else position_moves (do_move pos (fst (to_move pos token)))
               (st (do_move pos (fst (to_move pos token))) :: states) inp1
    | exist _ (None, inp1) _ => (pos, states, inp1) }.
Proof. eapply extract_string_progress; eassumption. Qed.

(** [position]: sets up the position of a FEN string or the start position
    and makes the moves of the move list. *)
Definition position `{Collaborators} (s : State) (inp : istringstream)
  : State * istringstream :=
  let (token, inp1) := extract_string inp in
  let setup (fen : string) (inp2 : istringstream) :=
    let p := Position_set fen
               (negb (Options_int (Options s) "UCI_Chess960" =? 0)) in
    let '(p', states, inp3) := position_moves p [] inp2 in
    (set_pos p' (Some states) s, inp3) in
  if String.eqb (token_of token) "startpos"
  then let (_, inp2) := extract_string inp1 in setup StartFEN inp2
  else if String.eqb (token_of token) "fen"
  then let (fen, inp2) :=
         while_token_ne "moves" (fun fen token => fen ++ token ++ " ") inp1 ""
       in setup fen inp2
  else (s, inp1).

(** [string(" ", !name.empty())]: a space unless [name] is empty. *)
Definition separator (name : string) : string :=
  match name with
  | EmptyString => ""
  | _ => " "
  end.

(** The name and the value that [setoption] reads off its line. *)
Definition setoption_parse (inp : istringstream)
  : string * string * istringstream :=
  let (_, inp1) := extract_string inp in
  let (name, inp2) :=
    while_token_ne "value"
      (fun name token => name ++ separator name ++ token) inp1 "" in
  let (value, inp3) :=
    while_token (fun value token => value ++ separator value ++ token) inp2 ""
  in (name, value, inp3).

(** [setoption]: updates the option [name] to [value]. *)
Definition setoption `{Collaborators} (s : State) (inp : istringstream)
  : State * istringstream :=
  let '(name, value, inp3) := setoption_parse inp in
  if Options_count (Options s) name
  then (set_Options (Options_assign (Options s) name value) s, inp3)
  else (print ("No such option: " ++ name) s, inp3).

(** [go]: reads the limits off the line and starts the search.  Modelled
    from the spec for the callee: ownership of [SetupStates] transfers to the
    search, which leaves the pointer of [uci.cpp] null. *)
Definition go `{Collaborators} (s : State) (inp : istringstream)
  : State * istringstream :=
  let (limits, inp1) := go_loop (pos s) inp LimitsType_init in
  (set_SetupStates None
     (call (Threads_start_thinking (pos s) limits (SetupStates s)) s), inp1).

Definition hex_digit (n : N) : ascii :=
  char_at "0123456789ABCDEF" (N.to_nat (N.land n 15)).

(** [hex << uppercase << setfill('0') << setw(16) << k] for a 64-bit key:
    its sixteen nibbles, the highest first. *)
Definition hex16 (k : N) : string :=
  string_of_list_ascii
    (List.map (fun i => hex_digit (N.shiftr k (4 * i)))
       [15; 14; 13; 12; 11; 10; 9; 8; 7; 6; 5; 4; 3; 2; 1; 0]%N).

(** [UCI::commandInit]: the root position is the start position. *)
Definition commandInit `{Collaborators} (s : State) : State :=
  set_pos (Position_set StartFEN false) (SetupStates s) s.

(** [UCI::command]: one command line. *)
Definition command `{Collaborators} (s : State) (cmd : string) : State :=
  let (otoken, inp) := extract_string (istringstream_of cmd) in
  let token := token_of otoken in
  if String.eqb token "quit" || String.eqb token "stop"
     || String.eqb token "ponderhit"
  then
    if negb (String.eqb token "ponderhit") || Signals_stopOnPonderhit s
    then call Threads_main_notify_one (set_Signals_stop true s)
    else set_Limits_ponder false s
  else if String.eqb token "perft"
  then
    match extract_int inp with
    | (Some depth, _) =>
        call (benchmark (pos s)
                (Some (istringstream_of
                         (string_of_int (Options_int (Options s) "Hash") ++ " "
                          ++ string_of_int (Options_int (Options s) "Threads")
                          ++ " " ++ string_of_int depth
                          ++ " current " ++ token)))) s
    | (None, _) => call (benchmark (pos s) None) s
    end
  else if String.eqb token "key"
  then print ("position key: " ++ hex16 (key (pos s))
              ++ String newline "material key: " ++ hex16 (material_key (pos s))
              ++ String newline "pawn key:     " ++ hex16 (pawn_key (pos s))) s
  else if String.eqb token "uci"
  then print ("id name " ++ engine_info true
              ++ String newline (Options_print (Options s))
              ++ String newline "uciok") s
  else if String.eqb token "ucinewgame" then call TT_clear s
  else if String.eqb token "go" then fst (go s inp)
  else if String.eqb token "position" then fst (position s inp)
  else if String.eqb token "setoption" then fst (setoption s inp)
  else if String.eqb token "flip" then set_pos (flip (pos s)) (SetupStates s) s
  else if String.eqb token "bench" then call (benchmark (pos s) (Some inp)) s
  else if String.eqb token "d" then print (pretty (pos s)) s
  else if String.eqb token "isready" then print "readyok" s
  else if String.eqb token "eval" then print (Eval_trace (pos s)) s
  else print ("Unknown command: " ++ cmd) s.

(** ** The vocabulary of the properties

    Definitions that the statements below are written with: views of
    strings and streams, and the behaviour the specification describes,
    stated on lists of tokens. *)

(** The characters of a string, for membership arguments. *)
Fixpoint chars (s : string) : list ascii :=
  match s with
  | EmptyString => []
  | String c s' => c :: chars s'
  end.

Definition ends_with (suffix s : string) : Prop :=
  exists prefix, s = prefix ++ suffix.

(** The text [format_value] writes before the bound marker. *)
Definition score_body `{ValueConstants} (v : Value) : string :=
  if Z.abs v <? VALUE_MATE_IN_MAX_PLY
  then "cp " ++ string_of_int (Z.quot (v * 100) PawnValueEg)
  else "mate " ++
       string_of_int
         (if 0 <? v then Z.quot (VALUE_MATE - Z.abs v + 1) 2
          else - Z.quot (VALUE_MATE - Z.abs v) 2).

(** The tokens a stream still holds. *)
Definition tokens (inp : istringstream) : list string :=
  fst (while_token (fun l token => (l ++ [token])%list) inp []).

(** Making the moves of a list of tokens, as the specification describes it
    for [position]: the moves are made one after the other up to the first
    token that names no legal move; that token is consumed and the tokens
    after it are left unread.  The result is the position, the stack of
    states and the unread tokens. *)
Fixpoint setup_moves `{PositionAPI} (pos : Position) (states : list StateInfo)
  (toks : list string) : Position * list StateInfo * list string :=
  match toks with
  | [] => (pos, states, [])
  | token :: rest =>
      let m := fst (to_move pos token) in
      if Move_eqb m MOVE_NONE then (pos, states, rest)
      else setup_moves (do_move pos m) (st (do_move pos m) :: states) rest
  end.

(** The digits [is >> n] would read off [s], after white space and a sign. *)
Definition number_prefix (s : string) : string :=
  match skipws s with
  | EmptyString => EmptyString
  | String c r =>
      fst (read_digits
             (if (Ascii.eqb c "-" || Ascii.eqb c "+")%bool then r else String c r))
  end.

(** [s] holds a token, and the token does not start with a number. *)
Definition bad_number (s : string) : bool :=
  match skipws s, number_prefix s with
  | String _ _, EmptyString => true
  | _, _ => false
  end.

(** The tokens before the first [stop], and the tokens after it. *)
Fixpoint take_until (stop : string) (toks : list string) : list string :=
  match toks with
  | [] => []
  | t :: rest => if String.eqb t stop then [] else t :: take_until stop rest
  end.

Fixpoint drop_after (stop : string) (toks : list string) : list string :=
  match toks with
  | [] => []
  | t :: rest => if String.eqb t stop then rest else drop_after stop rest
  end.

(** Tokens joined with single spaces. *)
Definition join (toks : list string) : string :=
  fold_left (fun name token => name ++ separator name ++ token) toks "".

Fixpoint count_char (c : ascii) (s : string) : nat :=
  match s with
  | EmptyString => 0
  | String a s' => (if Ascii.eqb a c then 1 else 0) + count_char c s'
  end.

Definition no_space (token : string) : Prop :=
  forall c, In c (chars token) -> isspace c = false.

(** The sixty-four squares, a1 first. *)
Definition all_squares : list Square := List.map Z.of_nat (seq 0 64).

(** The squares, other than the origin of [m], that hold a piece of the
    mover's type and colour which attacks the destination of [m] and whose
    move there is legal with respect to the pins. *)
Definition san_candidates `{PositionAPI} (pos : Position) (m : Move)
  : list Square :=
  let us := side_to_move pos in
  let from := from_sq m in
  let to := to_sq m in
  let pc := piece_on pos from in
  let pt := type_of_piece pc in
  filter (fun s =>
            N.testbit (attacks_from pos pc to) (Z.to_N s)
            && N.testbit (pieces pos us pt) (Z.to_N s)
            && negb (s =? from)
            && legal pos (make_move s to) (pinned_pieces pos us))
    all_squares.

(** The disambiguator the specification asks for: nothing without a
    candidate, else the file letter if no candidate is on the mover's file,
    else the rank digit if no candidate is on the mover's rank, else the
    whole origin square. *)
Definition san_disambiguator `{PositionAPI} (pos : Position) (m : Move)
  : string :=
  let from := from_sq m in
  match san_candidates pos m with
  | [] => ""
  | c =>
      if forallb (fun s => negb (file_of s =? file_of from)) c
      then String (file_char from) ""
      else if forallb (fun s => negb (rank_of s =? rank_of from)) c
      then String (rank_char from) ""
      else format_square from
  end.

(** What happens between two reads of the held position: a command line is
    processed, or the search side rewrites the flags it shares. *)
Inductive Activity :=
| Line (cmd : string)
| Searching (stop stopOnPonderhit ponder : bool).

Definition step `{Collaborators} (s : State) (a : Activity) : State :=
  match a with
  | Line cmd => command s cmd
  | Searching stop stopOnPonderhit ponder =>
      mk_state (pos s) (Options s) (SetupStates s) stop stopOnPonderhit ponder
        (cout s) (calls s)
  end.

Definition run `{Collaborators} (s : State) (acts : list Activity) : State :=
  fold_left step acts s.

(** The FEN and the move tokens of an accepted [position] command: the
    tokens of the line are "position", then "startpos" and one token that is
    skipped, or "fen" and the fields of the FEN up to "moves"; the move
    tokens follow. *)
Definition position_command (cmd : string) : option (string * list string) :=
  match tokens (istringstream_of cmd) with
  | command :: arg :: rest =>
      if String.eqb command "position" then
        if String.eqb arg "startpos" then Some (StartFEN, skipn 1 rest)
        else if String.eqb arg "fen" then
          Some (fold_left (fun fen token => fen ++ token ++ " ")
                  (take_until "moves" rest) "",
                drop_after "moves" rest)
        else None
      else None
  | _ => None
  end.

Definition is_flip (cmd : string) : bool :=
  match tokens (istringstream_of cmd) with
  | command :: _ => String.eqb command "flip"
  | [] => false
  end.

(** The position a [position] command describes: its FEN set up with the
    Chess960 option of the moment, then its moves made, up to the first
    token that names no legal move. *)
Definition position_described `{Collaborators} (o : OptionsMap)
  (fen_moves : string * list string) : Position :=
  fst (fst (setup_moves
              (Position_set (fst fen_moves)
                 (negb (Options_int o "UCI_Chess960" =? 0)))
              [] (snd fen_moves))).

(** The position described by the last accepted [position] command of
    [acts], processed from the state [s]; [start] if there is none. *)
Fixpoint expected_position `{Collaborators} (s : State) (start : Position)
  (acts : list Activity) : Position :=
  match acts with
  | [] => start
  | a :: rest =>
      expected_position (step s a)
        (match a with
         | Line cmd =>
             match position_command cmd with
             | Some fen_moves => position_described (Options s) fen_moves
             | None => start
             end
         | Searching _ _ _ => start
         end) rest
  end.

(** The number of [flip] commands since the last accepted [position]
    command (or since the start), counting on from [n]. *)
Fixpoint flips_since (n : nat) (acts : list Activity) : nat :=
  match acts with
  | [] => n
  | Line cmd :: rest =>
      match position_command cmd with
      | Some _ => flips_since 0 rest
      | None => flips_since (if is_flip cmd then S n else n) rest
      end
  | Searching _ _ _ :: rest => flips_since n rest
  end.

(** The positions reached along the moves of a list of tokens, the first
    move's first, up to the first token that names no legal move. *)
Fixpoint setup_path `{PositionAPI} (pos : Position) (toks : list string)
  : list Position :=
  match toks with
  | [] => []
  | token :: rest =>
      let m := fst (to_move pos token) in
      if Move_eqb m MOVE_NONE then []
      else do_move pos m :: setup_path (do_move pos m) rest
  end.

(** The words [UCI::command] knows. *)
Definition command_words : list string :=
  ["quit"; "stop"; "ponderhit"; "perft"; "key"; "uci"; "ucinewgame"; "go";
   "position"; "setoption"; "flip"; "bench"; "d"; "isready"; "eval"].

(** The command words whose branch reads nothing more off the line. *)
Definition plain_command_words : list string :=
  ["quit"; "stop"; "ponderhit"; "key"; "uci"; "ucinewgame"; "flip"; "d";
   "isready"; "eval"].

(** A token that is an integer in decimal notation: an optional sign and
    at least one digit, nothing else, the value within the range of [int]. *)
Definition is_int_literal (w : string) : bool :=
  match w with
  | EmptyString => false
  | String c r =>
      let negative := Ascii.eqb c "-" in
      let digits := if negative || Ascii.eqb c "+" then r else w in
      let v := if negative then - decimal_value 0 digits
               else decimal_value 0 digits in
      negb (String.eqb digits "") && forallb is_digit (chars digits)
      && (INT_MIN <=? v) && (v <=? INT_MAX)
  end.

Definition int_literal_value (w : string) : Z :=
  match w with
  | EmptyString => 0
  | String c r =>
      let negative := Ascii.eqb c "-" in
      let digits := if negative || Ascii.eqb c "+" then r else w in
      if negative then - decimal_value 0 digits else decimal_value 0 digits
  end.

(** The keywords of a [go] line that introduce a number. *)
Definition go_number_words : list string :=
  ["wtime"; "btime"; "winc"; "binc"; "movestogo"; "depth"; "nodes";
   "movetime"; "mate"].

Definition is_number_word (token : string) : bool :=
  existsb (String.eqb token) go_number_words.

(** The limits [l] with the number [v] under the keyword [word]: the time
    and the increment of White and of Black, the moves to go, the depth, the
    nodes, the move time and the mate distance. *)
Definition limits_with_number (word : string) (v : Z) (l : LimitsType)
  : LimitsType :=
  {| searchmoves := searchmoves l;
     time_WHITE := if String.eqb word "wtime" then v else time_WHITE l;
     time_BLACK := if String.eqb word "btime" then v else time_BLACK l;
     inc_WHITE := if String.eqb word "winc" then v else inc_WHITE l;
     inc_BLACK := if String.eqb word "binc" then v else inc_BLACK l;
     movestogo := if String.eqb word "movestogo" then v else movestogo l;
     depth := if String.eqb word "depth" then v else depth l;
     nodes := if String.eqb word "nodes" then v else nodes l;
     movetime := if String.eqb word "movetime" then v else movetime l;
     mate := if String.eqb word "mate" then v else mate l;
     infinite := infinite l;
     ponder := ponder l |}.

(** The limits [l] after a token that is no number keyword: "infinite" and
    "ponder" set their flag, any other token changes nothing. *)
Definition limits_with_flag (word : string) (l : LimitsType) : LimitsType :=
  {| searchmoves := searchmoves l;
     time_WHITE := time_WHITE l;
     time_BLACK := time_BLACK l;
     inc_WHITE := inc_WHITE l;
     inc_BLACK := inc_BLACK l;
     movestogo := movestogo l;
     depth := depth l;
     nodes := nodes l;
     movetime := movetime l;
     mate := mate l;
     infinite := infinite l || String.eqb word "infinite";
     ponder := ponder l || String.eqb word "ponder" |}.

(** The limits [l] with more root moves at the end of the list. *)
Definition limits_with_moves (moves : list Move) (l : LimitsType)
  : LimitsType :=
  {| searchmoves := searchmoves l ++ moves;
     time_WHITE := time_WHITE l;
     time_BLACK := time_BLACK l;
     inc_WHITE := inc_WHITE l;
     inc_BLACK := inc_BLACK l;
     movestogo := movestogo l;
     depth := depth l;
     nodes := nodes l;
     movetime := movetime l;
     mate := mate l;
     infinite := infinite l;
     ponder := ponder l |}.

(** The limits of a [go] line as the specification describes them, on the
    tokens after "go": a keyword that introduces a number puts the next
    token into its field, a flag sets its flag, "searchmoves" takes every
    token that is left as a move, and any other token is skipped. *)
Fixpoint go_tokens `{PositionAPI} (pos : Position) (toks : list string)
  (limits : LimitsType) : LimitsType :=
  match toks with
  | [] => limits
  | token :: rest =>
      if String.eqb token "searchmoves"
      then limits_with_moves
             (List.map (fun t => fst (to_move pos t)) rest) limits
      else if is_number_word token
      then match rest with
           | [] => limits
           | number :: rest' =>
               go_tokens pos rest'
                 (limits_with_number token (int_literal_value number) limits)
           end
      else go_tokens pos rest (limits_with_flag token limits)
  end.

(** Every keyword of a [go] line that introduces a number is followed by an
    integer, up to "searchmoves" if there is one. *)
Fixpoint numbers_well_formed (toks : list string) : bool :=
  match toks with
  | [] => true
  | token :: rest =>
      if String.eqb token "searchmoves" then true
      else if is_number_word token
      then match rest with
           | [] => true
           | number :: rest' =>
               is_int_literal number && numbers_well_formed rest'
           end
      else numbers_well_formed rest
  end.




(** The lower-case form of a character, letter by letter: the capital
    letters A to Z have one, every other character is its own. *)
Fixpoint letter_of (c : ascii) (capitals smalls : string) : ascii :=
  match capitals, smalls with
  | String a capitals', String b smalls' =>
      if Ascii.eqb c a then b else letter_of c capitals' smalls'
  | _, _ => c
  end.

Definition lower_case (c : ascii) : ascii :=
  letter_of c "ABCDEFGHIJKLMNOPQRSTUVWXYZ" "abcdefghijklmnopqrstuvwxyz".

(** Modelled from the spec: [Position::do_move] and [Position::undo_move]
    live in [position.cpp], which is not part of the sources at hand.  The
    specification describes the Position as a mutable entity that "exposes
    apply-move/undo-move", and the probe of [move_to_san] as a move that is
    applied and then undone.  A position is modelled with the positions it
    was reached from: apply-move makes the move on the board and keeps the
    position it came from, undo-move goes back to that one.  Setting up a
    FEN (which [flip] does too) starts afresh; every query is answered by the
    board as it stands. *)
Record UndoablePosition `{PositionAPI} := mk_undoable {
  current : Position;
  earlier : list Position
}.

Arguments mk_undoable {_} current earlier.

Definition undoable_position_api `{PositionAPI} : PositionAPI := {|
  Position := UndoablePosition;
  StateInfo := StateInfo;
  Position_set := fun fen chess960 => mk_undoable (Position_set fen chess960) [];
  is_chess960 := fun p => is_chess960 (current p);
  MoveList_LEGAL := fun p => MoveList_LEGAL (current p);
  do_move := fun p m =>
    mk_undoable (do_move (current p) m) (current p :: earlier p);
  undo_move := fun p m =>
    match earlier p with
    | q :: before => mk_undoable q before
    | [] => mk_undoable (undo_move (current p) m) []
    end;
  st := fun p => st (current p);
  flip := fun p => mk_undoable (flip (current p)) [];
  side_to_move := fun p => side_to_move (current p);
  piece_on := fun p => piece_on (current p);
  attacks_from := fun p => attacks_from (current p);
  pieces := fun p => pieces (current p);
  pinned_pieces := fun p => pinned_pieces (current p);
  legal := fun p => legal (current p);
  capture := fun p => capture (current p);
  gives_check := fun p => gives_check (current p);
  checkers := fun p => checkers (current p);
  key := fun p => key (current p);
  material_key := fun p => material_key (current p);
  pawn_key := fun p => pawn_key (current p);
  pretty := fun p => pretty (current p)
|}.

(** ** An engine for the examples

    The examples below need some engine behind the interfaces.  This one is
    a small board: the pieces of a FEN, the attacks of the pieces, and the
    moves that leave the own king unattacked.  It knows no en passant
    capture, and of castling only the one move of [KingRookFEN]. *)

Definition squares_bb (l : list Square) : Bitboard :=
  fold_right (fun s b => N.lor (SquareBB s) b) 0%N l.

Definition Color_eqb (a b : Color) : bool :=
  match a, b with
  | WHITE, WHITE | BLACK, BLACK => true
  | _, _ => false
  end.

Definition opposite (c : Color) : Color :=
  match c with
  | WHITE => BLACK
  | BLACK => WHITE
  end.

Definition Piece_eqb (a b : Piece) : bool :=
  match a, b with
  | NO_PIECE, NO_PIECE => true
  | make_piece c pt, make_piece c' pt' => Color_eqb c c' && PieceType_eqb pt pt'
  | _, _ => false
  end.

(** A board: the piece on each of the sixty-four squares, a1 first. *)
Definition Board := list Piece.

Definition board_get (b : Board) (s : Square) : Piece :=
  if is_ok s then nth (Z.to_nat s) b NO_PIECE else NO_PIECE.

Fixpoint list_set {A : Type} (l : list A) (n : nat) (x : A) : list A :=
  match l, n with
  | [], _ => []
  | _ :: l', O => x :: l'
  | a :: l', S n' => a :: list_set l' n' x
  end.

Definition board_set (b : Board) (s : Square) (pc : Piece) : Board :=
  if is_ok s then list_set b (Z.to_nat s) pc else b.

Definition piece_of_char (c : ascii) : Piece :=
  if Ascii.eqb c "P" then make_piece WHITE PAWN
  else if Ascii.eqb c "N" then make_piece WHITE KNIGHT
  else if Ascii.eqb c "B" then make_piece WHITE BISHOP
  else if Ascii.eqb c "R" then make_piece WHITE ROOK
  else if Ascii.eqb c "Q" then make_piece WHITE QUEEN
  else if Ascii.eqb c "K" then make_piece WHITE KING
  else if Ascii.eqb c "p" then make_piece BLACK PAWN
  else if Ascii.eqb c "n" then make_piece BLACK KNIGHT
  else if Ascii.eqb c "b" then make_piece BLACK BISHOP
  else if Ascii.eqb c "r" then make_piece BLACK ROOK
  else if Ascii.eqb c "q" then make_piece BLACK QUEEN
  else if Ascii.eqb c "k" then make_piece BLACK KING
  else NO_PIECE.

(** The piece placement of a FEN, read from a8; it ends at the first blank. *)
Fixpoint fen_board (fen : string) (f r : Z) (b : Board) : Board :=
  match fen with
  | EmptyString => b
  | String c rest =>
      if Ascii.eqb c " " then b
      else if Ascii.eqb c "/" then fen_board rest 0 (r - 1) b
      else if is_digit c then fen_board rest (f + (Z_of_ascii c - 48)) r b
      else fen_board rest (f + 1) r
             (board_set b (make_square f r) (piece_of_char c))
  end.

(** The side to move of a FEN: its second field. *)
Definition fen_side (fen : string) : Color :=
  match tokens (istringstream_of fen) with
  | _ :: side :: _ => if String.eqb side "b" then BLACK else WHITE
  | _ => WHITE
  end.

Definition swap_color (pc : Piece) : Piece :=
  match pc with
  | NO_PIECE => NO_PIECE
  | make_piece c pt => make_piece (opposite c) pt
  end.

(** The board after a move of the side [us]. *)
Definition board_after (b : Board) (us : Color) (m : Move) : Board :=
  let from := from_sq m in
  let to := to_sq m in
  match type_of m with
  | CASTLING =>
      let kto := make_square (if to >? from then 6 else 2) (rank_of from) in
      let rto := make_square (if to >? from then 5 else 3) (rank_of from) in
      board_set
        (board_set (board_set (board_set b from NO_PIECE) to NO_PIECE)
           kto (make_piece us KING))
        rto (make_piece us ROOK)
  | PROMOTION =>
      board_set (board_set b from NO_PIECE) to (make_piece us (promotion_type m))
  | _ => board_set (board_set b from NO_PIECE) to (board_get b from)
  end.

Definition board_flip (b : Board) : Board :=
  List.map (fun s => swap_color (board_get b (Z.lxor s 56))) all_squares.

Definition on_board (f r : Z) : bool :=
  (0 <=? f) && (f <? 8) && (0 <=? r) && (r <? 8).

(** The squares a slider sees from ([f], [r]) in the direction ([df], [dr]),
    the first occupied one included. *)
Fixpoint ray (b : Board) (n : nat) (f r df dr : Z) : list Square :=
  match n with
  | O => []
  | S n' =>
      if on_board (f + df) (r + dr)
      then
        let s := make_square (f + df) (r + dr) in
        match board_get b s with
        | NO_PIECE => s :: ray b n' (f + df) (r + dr) df dr
        | _ => [s]
        end
      else []
  end.

Definition rays (b : Board) (s : Square) (dirs : list (Z * Z)) : list Square :=
  flat_map (fun d => ray b 7 (file_of s) (rank_of s) (fst d) (snd d)) dirs.

Definition steps (s : Square) (dirs : list (Z * Z)) : list Square :=
  flat_map (fun d =>
              if on_board (file_of s + fst d) (rank_of s + snd d)
              then [make_square (file_of s + fst d) (rank_of s + snd d)]
              else []) dirs.

Definition rook_dirs : list (Z * Z) := [(1, 0); (-1, 0); (0, 1); (0, -1)].

Definition bishop_dirs : list (Z * Z) := [(1, 1); (1, -1); (-1, 1); (-1, -1)].

Definition knight_dirs : list (Z * Z) :=
  [(1, 2); (2, 1); (2, -1); (1, -2); (-1, -2); (-2, -1); (-2, 1); (-1, 2)].

(** The squares a piece [pc] standing on [s] attacks. *)
Definition board_attacks (b : Board) (pc : Piece) (s : Square) : list Square :=
  match pc with
  | NO_PIECE => []
  | make_piece c pt =>
      match pt with
      | PAWN => steps s (match c with
                         | WHITE => [(-1, 1); (1, 1)]
                         | BLACK => [(-1, -1); (1, -1)]
                         end)
      | KNIGHT => steps s knight_dirs
      | BISHOP => rays b s bishop_dirs
      | ROOK => rays b s rook_dirs
      | QUEEN => rays b s (rook_dirs ++ bishop_dirs)
      | KING => steps s (rook_dirs ++ bishop_dirs)
      | NO_PIECE_TYPE => []
      end
  end.

Definition color_is (c : Color) (pc : Piece) : bool :=
  match pc with
  | NO_PIECE => false
  | make_piece c' _ => Color_eqb c c'
  end.

(** The squares from which a piece of the colour [by] attacks [s]. *)
Definition board_attackers (b : Board) (by_ : Color) (s : Square) : list Square :=
  filter (fun t =>
            color_is by_ (board_get b t)
            && existsb (Z.eqb s) (board_attacks b (board_get b t) t))
    all_squares.

Definition board_squares (b : Board) (pc : Piece) : list Square :=
  filter (fun s => Piece_eqb (board_get b s) pc) all_squares.

Definition board_in_check (b : Board) (c : Color) : bool :=
  existsb (fun k => match board_attackers b (opposite c) k with
                    | [] => false
                    | _ => true
                    end)
    (board_squares b (make_piece c KING)).

(** The moves of the piece on [s], whatever becomes of the own king. *)
Definition board_piece_moves (b : Board) (us : Color) (s : Square) : list Move :=
  match board_get b s with
  | NO_PIECE => []
  | make_piece c pt =>
      if negb (Color_eqb c us) then []
      else
        match pt with
        | PAWN =>
            let dr := match us with WHITE => 1 | BLACK => -1 end in
            let first := match us with WHITE => 1 | BLACK => 6 end in
            let last := match us with WHITE => 7 | BLACK => 0 end in
            let one := make_square (file_of s) (rank_of s + dr) in
            let two := make_square (file_of s) (rank_of s + 2 * dr) in
            let targets :=
              ((match board_get b one with
                | NO_PIECE =>
                    one :: (if rank_of s =? first
                            then match board_get b two with
                                 | NO_PIECE => [two]
                                 | _ => []
                                 end
                            else [])
                | _ => []
                end)
               ++ filter (fun t => color_is (opposite us) (board_get b t))
                    (board_attacks b (make_piece c pt) s))%list in
            flat_map (fun t =>
                        if rank_of t =? last
                        then List.map (make PROMOTION s t)
                               [QUEEN; ROOK; BISHOP; KNIGHT]
                        else [make_move s t]) targets
        | _ =>
            List.map (make_move s)
              (filter (fun t => negb (color_is us (board_get b t)))
                 (board_attacks b (make_piece c pt) s))
        end
  end.

Definition board_legal (b : Board) (us : Color) (m : Move) : bool :=
  negb (board_in_check (board_after b us m) us).

Definition board_moves (b : Board) (us : Color) : list Move :=
  filter (board_legal b us) (flat_map (board_piece_moves b us) all_squares).

(** A position is represented by the way it was reached: a FEN that was set
    up, then moves and flips. *)
Inductive DemoPosition :=
| Setup (fen : string) (chess960 : bool)
| Moved (p : DemoPosition) (m : Move)
| Flipped (p : DemoPosition).

Fixpoint demo_side_to_move (p : DemoPosition) : Color :=
  match p with
  | Setup fen _ => fen_side fen
  | Moved q _ | Flipped q => opposite (demo_side_to_move q)
  end.

Fixpoint demo_board (p : DemoPosition) : Board :=
  match p with
  | Setup fen _ => fen_board fen 0 7 (repeat NO_PIECE 64)
  | Moved q m => board_after (demo_board q) (demo_side_to_move q) m
  | Flipped q => board_flip (demo_board q)
  end.

Fixpoint demo_is_chess960 (p : DemoPosition) : bool :=
  match p with
  | Setup _ c => c
  | Moved q _ | Flipped q => demo_is_chess960 q
  end.

(** King f1 and rook h1 with the right to castle, in normal chess. *)
Definition KingRookFEN : string := "4k3/8/8/8/8/8/8/5K1R w K - 0 1".

(** Rooks a1 and h1, king g2, against a king on d8. *)
Definition RooksFEN : string := "3k4/8/8/8/8/8/6K1/R6R w - - 0 1".

(** The castling moves, each "king takes rook": only the one of
    [KingRookFEN], where g1 is empty and unattacked. *)
Definition demo_castling_moves (p : DemoPosition) : list Move :=
  match p with
  | Setup fen _ =>
      if String.eqb fen KingRookFEN then [make CASTLING 5 7 NO_PIECE_TYPE]
      else []
  | _ => []
  end.

(** The legal moves: those of the pieces, then the castling moves. *)
Definition demo_legal_moves (p : DemoPosition) : list Move :=
  (board_moves (demo_board p) (demo_side_to_move p)
   ++ demo_castling_moves p)%list.

Definition demo_legal (p : DemoPosition) (m : Move) (pinned : Bitboard) : bool :=
  board_legal (demo_board p) (demo_side_to_move p) m.

Definition demo_checkers (p : DemoPosition) : Bitboard :=
  squares_bb
    (flat_map (board_attackers (demo_board p) (opposite (demo_side_to_move p)))
       (board_squares (demo_board p) (make_piece (demo_side_to_move p) KING))).

Definition demo_gives_check (p : DemoPosition) (m : Move) : bool :=
  negb (N.eqb (demo_checkers (Moved p m)) 0).

Definition demo_capture (p : DemoPosition) (m : Move) : bool :=
  match type_of m with
  | CASTLING => false
  | _ => color_is (opposite (demo_side_to_move p))
           (board_get (demo_board p) (to_sq m))
  end.

Definition demo_undo_move (p : DemoPosition) (m : Move) : DemoPosition :=
  match p with
  | Moved q _ => q
  | _ => p
  end.

(** A FEN without the blank that [position] leaves at its end. *)
Fixpoint rtrim (s : string) : string :=
  match s with
  | EmptyString => EmptyString
  | String c s' =>
      match rtrim s' with
      | EmptyString => if Ascii.eqb c " " then EmptyString else String c EmptyString
      | t => String c t
      end
  end.

(** A stand-in for the Zobrist key: the board read as a number. *)
Definition demo_key (p : DemoPosition) : N :=
  fold_left (fun k pc =>
               (k * 13 +
                match pc with
                | NO_PIECE => 0
                | make_piece WHITE pt => N.of_nat (PieceType_index pt)
                | make_piece BLACK pt => 6 + N.of_nat (PieceType_index pt)
                end) mod 2 ^ 64)%N
    (demo_board p)
    (match demo_side_to_move p with WHITE => 0 | BLACK => 1 end)%N.

Definition demo_position_api : PositionAPI := {|
  Position := DemoPosition;
  StateInfo := DemoPosition;
  Position_set := fun fen c => Setup (rtrim fen) c;
  is_chess960 := demo_is_chess960;
  MoveList_LEGAL := demo_legal_moves;
  do_move := Moved;
  undo_move := demo_undo_move;
  st := fun p => p;
  flip := Flipped;
  side_to_move := demo_side_to_move;
  piece_on := fun p => board_get (demo_board p);
  attacks_from := fun p pc s => squares_bb (board_attacks (demo_board p) pc s);
  pieces := fun p c pt =>
    squares_bb (board_squares (demo_board p) (make_piece c pt));
  pinned_pieces := fun _ _ => 0%N;
  legal := demo_legal;
  capture := demo_capture;
  gives_check := demo_gives_check;
  checkers := demo_checkers;
  key := demo_key;
  material_key := fun _ => 0%N;
  pawn_key := fun _ => 0%N;
  pretty := fun _ => ""
|}.

Definition demo_e2e4 : Move := make_move 12 28.

Definition demo_Ra1d1 : Move := make_move 0 3.

(** The option table of the example engine: names and current values. *)
Definition demo_options : list (string * string) :=
  [("Hash", "32"); ("Threads", "1"); ("UCI_Chess960", "false")].

Fixpoint demo_lookup (o : list (string * string)) (name : string)
  : option string :=
  match o with
  | [] => None
  | (n, v) :: o' => if String.eqb n name then Some v else demo_lookup o' name
  end.

Fixpoint demo_assign (o : list (string * string)) (name value : string)
  : list (string * string) :=
  match o with
  | [] => []
  | (n, v) :: o' =>
      if String.eqb n name then (n, value) :: o'
      else (n, v) :: demo_assign o' name value
  end.

Definition demo_option_int (o : list (string * string)) (name : string) : Z :=
  match demo_lookup o name with
  | Some v => if String.eqb v "true" then 1 else decimal_value 0 (fst (read_digits v))
  | None => 0
  end.

Definition demo_collaborators : @Collaborators demo_position_api := {|
  OptionsMap := list (string * string);
  Options_count := fun o name =>
    match demo_lookup o name with Some _ => true | None => false end;
  Options_assign := demo_assign;
  Options_int := demo_option_int;
  Options_print := fun _ => "";
  engine_info := fun _ => "Stockfish";
  Eval_trace := fun _ => ""
|}.

Definition demo_values : ValueConstants := {|
  VALUE_MATE := 30000;
  VALUE_MATE_IN_MAX_PLY := 29880;
  PawnValueEg := 258
|}.

(** The state of the example engine after [UCI::commandInit]. *)
Definition demo_init : @State demo_position_api demo_collaborators :=
  @commandInit demo_position_api demo_collaborators
    (@mk_state demo_position_api demo_collaborators
       (Setup "" false) demo_options None false false false "" []).

(** * Properties *)

(** ** Strings *)

Lemma get_set_char s n c i :
  String.get i (set_char s n c) =
  if (Nat.eqb i n && Nat.ltb n (String.length s))%bool then Some c
  else String.get i s.
Proof.
  revert n i. induction s as [|a s IH]; intros n i; simpl.
  - rewrite andb_false_r. reflexivity.
  - destruct n as [|n]; destruct i as [|i]; simpl; try reflexivity.
    rewrite IH. reflexivity.
Qed.

Lemma get_char_at s n :
  (n < String.length s)%nat -> String.get n s = Some (char_at s n).
Proof.
  unfold char_at. revert n. induction s as [|a s IH]; intros n Hn; simpl in *.
  - lia.
  - destruct n as [|n]; [reflexivity|]. apply IH. lia.
Qed.

Lemma string_app_assoc (a b c : string) : (a ++ b) ++ c = a ++ (b ++ c).
Proof. induction a as [|x a IH]; simpl; [reflexivity | now rewrite IH]. Qed.

Lemma string_app_nil_r (a : string) : a ++ "" = a.
Proof. induction a as [|x a IH]; simpl; [reflexivity | now rewrite IH]. Qed.

Lemma string_app_length (a b : string) :
  String.length (a ++ b) = (String.length a + String.length b)%nat.
Proof. induction a as [|x a IH]; simpl; [reflexivity | now rewrite IH]. Qed.

Lemma chars_app (a b : string) : chars (a ++ b) = (chars a ++ chars b)%list.
Proof. induction a as [|x a IH]; simpl; [reflexivity | now rewrite IH]. Qed.

(** ** [to_move] and the caller's string *)

Lemma tolower_lower_case (c : ascii) : tolower c = lower_case c.
Proof.
  destruct c as [[] [] [] [] [] [] [] []]; reflexivity.
Qed.

(** C10.  [to_move] works on the caller's string: when the string has exactly
    five characters its fifth one is replaced by its lower-case form (a
    capital letter from A to Z by the small letter, any other character by
    itself), every other character and every string of another length is
    left as it is, and the legal moves are matched against the string so
    modified. *)
Theorem to_move_lowers_fifth_char `{PositionAPI} (pos : Position) (str : string) :
  (forall i,
      String.get i (snd (to_move pos str)) =
      if (Nat.eqb (String.length str) 5 && Nat.eqb i 4)%bool
      then option_map lower_case (String.get i str)
      else String.get i str)
  /\ fst (to_move pos str) =
     to_move_scan (MoveList_LEGAL pos) (snd (to_move pos str)) (is_chess960 pos).
Proof.
  unfold to_move; simpl. split; [|reflexivity].
  intros i. destruct (Nat.eqb (String.length str) 5) eqn:E; simpl; [|reflexivity].
  apply Nat.eqb_eq in E. rewrite get_set_char, E.
  destruct (Nat.eqb i 4) eqn:Ei; simpl; [|reflexivity].
  apply Nat.eqb_eq in Ei. subst i.
  rewrite (get_char_at str 4) by lia. cbn [option_map].
  now rewrite tolower_lower_case.
Qed.

(** ** Squares *)

Lemma file_of_mod (s : Square) : file_of s = s mod 8.
Proof. unfold file_of. change 7 with (Z.ones 3). now rewrite Z.land_ones. Qed.

Lemma rank_of_div (s : Square) : rank_of s = s / 8.
Proof. unfold rank_of. now rewrite Z.shiftr_div_pow2. Qed.

Lemma square_decompose (s : Square) :
  s = 8 * rank_of s + file_of s /\ 0 <= file_of s < 8.
Proof.
  rewrite file_of_mod, rank_of_div. split.
  - apply Z.div_mod. lia.
  - apply Z.mod_pos_bound. lia.
Qed.

Lemma make_square_value (f : File) (r : Rank) :
  0 <= f < 8 -> make_square f r = 8 * r + f.
Proof.
  intros Hf. unfold make_square.
  rewrite Z.shiftl_mul_pow2 by lia. change (2 ^ 3) with 8.
  rewrite <- Z.lxor_lor, <- Z.add_nocarry_lxor; [lia | |];
    (apply Z.bits_inj'; intros n Hn; rewrite Z.land_spec, Z.bits_0;
     destruct (Z.ltb_spec n 3) as [Hlt|Hge];
     [ replace (r * 8) with (r * 2 ^ 3) by lia;
       rewrite Z.mul_pow2_bits_low by lia; reflexivity
     | replace f with (f mod 2 ^ 3) by (apply Z.mod_small; lia);
       rewrite Z.mod_pow2_bits_high by lia; apply andb_false_r ]).
Qed.

Lemma file_of_make_square (f : File) (r : Rank) :
  0 <= f < 8 -> file_of (make_square f r) = f.
Proof.
  intros Hf. rewrite file_of_mod, make_square_value by exact Hf.
  rewrite Z.add_comm, Z.mul_comm, Z.mod_add by lia. apply Z.mod_small. lia.
Qed.

Lemma rank_of_make_square (f : File) (r : Rank) :
  0 <= f < 8 -> rank_of (make_square f r) = r.
Proof.
  intros Hf. rewrite rank_of_div, make_square_value by exact Hf.
  rewrite Z.add_comm, Z.mul_comm, Z.div_add by lia.
  rewrite Z.div_small by lia. reflexivity.
Qed.

(** On one rank, the higher square is the one on the higher file. *)
Lemma same_rank_order (a b : Square) :
  rank_of a = rank_of b -> (b >? a) = (file_of a <? file_of b).
Proof.
  intros Hr.
  destruct (square_decompose a) as [Ha Hfa], (square_decompose b) as [Hb Hfb].
  rewrite Z.gtb_ltb. destruct (Z.ltb_spec a b), (Z.ltb_spec (file_of a) (file_of b));
    try reflexivity; lia.
Qed.

(** ** Castling in coordinate notation *)

(** C7.  A castling move (the king on [from], its rook on [to], both on one
    rank) is printed without the Chess960 flag as the king's square followed
    by the g-file square (king side: the rook stands on a higher file) or the
    c-file square (queen side) of the king's rank, and with the flag as the
    king's square followed by the rook's square. *)
Theorem format_move_castling (from to : Square) (pt : PieceType) :
  rank_of from = rank_of to ->
  format_move (make CASTLING from to pt) false =
    format_square from ++
    String (if file_of from <? file_of to then "g"%char else "c"%char)
      (String (ascii_of_Z (Z_of_ascii "1" + rank_of from)) "")
  /\ format_move (make CASTLING from to pt) true =
     format_square from ++ format_square to.
Proof.
  intros Hr. split; [|reflexivity].
  unfold format_move. cbn [Move_eqb from_sq to_sq type_of MoveType_eqb andb negb].
  change (Move_eqb (make CASTLING from to pt) MOVE_NONE) with false.
  change (Move_eqb (make CASTLING from to pt) MOVE_NULL) with false.
  cbv iota. f_equal. rewrite (same_rank_order _ _ Hr).
  unfold format_square at 1.
  destruct (file_of from <? file_of to);
    rewrite file_of_make_square, rank_of_make_square by (unfold FILE_G, FILE_C; lia);
    reflexivity.
Qed.

(** The king on e1 castling with the rook on h1 is printed "e1g1". *)
Lemma format_move_castling_witness :
  rank_of 4 = rank_of 7 /\ format_move (make CASTLING 4 7 NO_PIECE_TYPE) false = "e1g1".
Proof.
  split; [reflexivity|].
  exact (proj1 (format_move_castling 4 7 NO_PIECE_TYPE eq_refl)).
Defined.

(** ** Scores *)

Lemma app_suffix_inj (a b x y : string) :
  a ++ x = b ++ y -> String.length x = String.length y -> a = b /\ x = y.
Proof.
  revert b. induction a as [|c a IH]; intros [|d b] E L; simpl in *.
  - now split.
  - exfalso. apply (f_equal String.length) in E. simpl in E.
    rewrite string_app_length in E. lia.
  - exfalso. apply (f_equal String.length) in E. simpl in E.
    rewrite string_app_length in E. lia.
  - injection E as -> E. destruct (IH _ E L) as [-> ->]. now split.
Qed.

Lemma uint_chars_digits (d : Decimal.uint) (c : ascii) :
  In c (chars (NilEmpty.string_of_uint d)) -> is_digit c = true.
Proof.
  induction d; simpl; intros Hc;
    try (destruct Hc as [<- | Hc]; [reflexivity | now apply IHd]).
  contradiction.
Qed.

(** A number in decimal is written with digits and a minus sign only. *)
Lemma string_of_int_chars (z : Z) (c : ascii) :
  In c (chars (string_of_int z)) -> is_digit c = true \/ c = "-"%char.
Proof.
  unfold string_of_int, NilZero.string_of_int, NilZero.string_of_uint.
  destruct (Z.to_int z) as [d | d]; simpl.
  - destruct d; simpl; intros Hc; left;
      try (destruct Hc as [<- | Hc]; [reflexivity|]); try contradiction;
      now apply (uint_chars_digits d).
  - intros [<- | Hc]; [now right | left].
    destruct d; simpl in Hc;
      try (destruct Hc as [<- | Hc]; [reflexivity|]); try contradiction;
      now apply (uint_chars_digits d).
Qed.

Lemma format_value_body `{ValueConstants} (v alpha beta : Value) :
  format_value v alpha beta =
  score_body v ++ (if beta <=? v then " lowerbound"
                   else if v <=? alpha then " upperbound" else "").
Proof.
  unfold format_value, score_body. rewrite Z.geb_leb, Z.gtb_ltb.
  f_equal. destruct (Z.abs v <? VALUE_MATE_IN_MAX_PLY); [reflexivity|].
  do 2 f_equal. destruct (Z.ltb_spec 0 v).
  - now rewrite Z.abs_eq by lia.
  - rewrite Z.abs_neq by lia. rewrite <- Z.quot_opp_l by lia. f_equal. lia.
Qed.

Lemma score_body_no_d `{ValueConstants} (v : Value) :
  ~ In "d"%char (chars (score_body v)).
Proof.
  unfold score_body.
  destruct (Z.abs v <? VALUE_MATE_IN_MAX_PLY); rewrite chars_app; simpl;
    intros Hin;
    repeat (destruct Hin as [Hin | Hin]; [discriminate|]);
    apply string_of_int_chars in Hin; destruct Hin as [Hin | Hin];
    discriminate.
Qed.

(** C9.  The text of [format_value] ends with " lowerbound" exactly when
    [v >= beta], with " upperbound" exactly when [v <= alpha] and [v < beta],
    and carries no marker otherwise.  Before the marker stands "cp <x>" with
    [x = v * 100 / PawnValueEg] when the absolute value of [v] is below
    [VALUE_MATE_IN_MAX_PLY], and "mate <y>" otherwise, where [y] counts moves:
    half the plies to mate, rounded up, when [v] is positive, and minus half
    the plies to being mated, rounded down, when it is not. *)
Theorem format_value_shape `{ValueConstants} (v alpha beta : Value) :
  (ends_with " lowerbound" (format_value v alpha beta) <-> beta <= v)
  /\ (ends_with " upperbound" (format_value v alpha beta)
      <-> v <= alpha /\ v < beta)
  /\ (exists marker,
         format_value v alpha beta = score_body v ++ marker
         /\ (marker = " lowerbound" \/ marker = " upperbound" \/ marker = ""))
  /\ score_body v =
     (if Z.abs v <? VALUE_MATE_IN_MAX_PLY
      then "cp " ++ string_of_int (Z.quot (v * 100) PawnValueEg)
      else "mate " ++
           string_of_int
             (if 0 <? v then Z.quot (VALUE_MATE - Z.abs v + 1) 2
              else - Z.quot (VALUE_MATE - Z.abs v) 2)).
Proof.
  assert (Hbody : forall suffix,
             In "d"%char (chars suffix) -> ~ ends_with suffix (score_body v)).
  { intros suffix Hd [prefix E]. apply (score_body_no_d v).
    rewrite E, chars_app. apply in_or_app. now right. }
  assert (Hother : forall marker suffix,
             String.length marker = String.length suffix ->
             ends_with suffix (score_body v ++ marker) -> marker = suffix).
  { intros marker suffix L [prefix E].
    now destruct (app_suffix_inj _ _ _ _ E L). }
  rewrite format_value_body.
  split; [|split; [|split; [|reflexivity]]].
  - destruct (Z.leb_spec beta v) as [Hb|Hb]; [|destruct (v <=? alpha)].
    + split; [intros _; exact Hb | intros _; now exists (score_body v)].
    + split; [intros E; apply Hother in E; [discriminate | reflexivity] | lia].
    + rewrite string_app_nil_r.
      split; [intros E; apply Hbody in E; [contradiction | simpl; tauto] | lia].
  - destruct (Z.leb_spec beta v) as [Hb|Hb];
      [|destruct (Z.leb_spec v alpha) as [Ha|Ha]].
    + split; [intros E; apply Hother in E; [discriminate | reflexivity] | lia].
    + split; [intros _; lia | intros _; now exists (score_body v)].
    + rewrite string_app_nil_r.
      split; [intros E; apply Hbody in E; [contradiction | simpl; tauto] | lia].
  - destruct (beta <=? v); [|destruct (v <=? alpha)]; eexists;
      (split; [reflexivity | tauto]).
Qed.

(** A value far below [VALUE_MATE_IN_MAX_PLY] that is printed as a mate
    score: being mated in five moves. *)
Lemma format_value_mated_counterexample :
  -29990 < @VALUE_MATE_IN_MAX_PLY demo_values
  /\ @format_value demo_values (-29990) (-30001) 30001 = "mate -5".
Proof. split; reflexivity. Qed.

(** ** The round trip through coordinate notation *)

Lemma format_square_shape (s : Square) :
  exists a b, format_square s = String a (String b "").
Proof. unfold format_square. eauto. Qed.

(** What [to_move] does to a five-character string leaves the strings that
    [format_move] writes as they are. *)
Lemma format_move_already_lower (m : Move) (chess960 : bool) :
  (if Nat.eqb (String.length (format_move m chess960)) 5
   then set_char (format_move m chess960) 4
          (tolower (char_at (format_move m chess960) 4))
   else format_move m chess960) = format_move m chess960.
Proof.
  destruct m as [| | ty from to pt]; try reflexivity.
  unfold format_move.
  change (Move_eqb (make ty from to pt) MOVE_NONE) with false.
  change (Move_eqb (make ty from to pt) MOVE_NULL) with false.
  cbv iota. cbn [type_of promotion_type from_sq to_sq].
  match goal with
  | |- context [format_square from ++ format_square ?t] =>
      destruct (format_square_shape from) as (a & b & ->);
      destruct (format_square_shape t) as (c & d & ->)
  end.
  destruct ty; try reflexivity. destruct pt; reflexivity.
Qed.

Lemma to_move_scan_found (l : list Move) (m : Move) (chess960 : bool) :
  In m l -> ~ In MOVE_NONE l ->
  In (to_move_scan l (format_move m chess960) chess960) l
  /\ format_move (to_move_scan l (format_move m chess960) chess960) chess960
     = format_move m chess960.
Proof.
  induction l as [|x l IH]; intros Hin Hnone; [contradiction|].
  cbn [to_move_scan]. unfold Move_eqb.
  destruct (Move_eq_dec x MOVE_NONE) as [->|Hx].
  - exfalso. apply Hnone. now left.
  - destruct (String.eqb_spec (format_move m chess960) (format_move x chess960))
      as [E|E].
    + split; [now left | now symmetry].
    + destruct Hin as [->|Hin]; [congruence|].
      destruct (IH Hin) as [H1 H2]; [intros Hn; apply Hnone; now right|].
      split; [now right | exact H2].
Qed.

(** C1.  Writing a legal move [m] of [pos] with [format_move] and reading the
    text back with [to_move] yields a legal move of [pos], not [MOVE_NONE],
    that is written the same way; it is [m] itself whenever no other legal
    move of [pos] is written the same way. *)
Theorem to_move_format_move `{PositionAPI} (pos : Position) (m : Move) :
  In m (MoveList_LEGAL pos) ->
  ~ In MOVE_NONE (MoveList_LEGAL pos) ->
  let found := fst (to_move pos (format_move m (is_chess960 pos))) in
  In found (MoveList_LEGAL pos)
  /\ found <> MOVE_NONE
  /\ format_move found (is_chess960 pos) = format_move m (is_chess960 pos)
  /\ ((forall m', In m' (MoveList_LEGAL pos) ->
                  format_move m' (is_chess960 pos) = format_move m (is_chess960 pos) ->
                  m' = m) ->
      found = m).
Proof.
  intros Hin Hnone found. subst found. unfold to_move.
  rewrite format_move_already_lower. cbn [fst].
  destruct (to_move_scan_found _ _ (is_chess960 pos) Hin Hnone) as [H1 H2].
  repeat split; try assumption.
  - intros E. rewrite E in H1. contradiction.
  - intros Huniq. now apply Huniq.
Qed.

(** In the start position "e2e4" is read back as the move it was written
    from. *)
Lemma to_move_format_move_witness :
  In demo_e2e4 (demo_legal_moves (Setup StartFEN false))
  /\ ~ In MOVE_NONE (demo_legal_moves (Setup StartFEN false))
  /\ fst (@to_move demo_position_api (Setup StartFEN false)
            (format_move demo_e2e4 false)) = demo_e2e4.
Proof.
  assert (Hin : In demo_e2e4 (demo_legal_moves (Setup StartFEN false)))
    by (vm_compute; tauto).
  assert (Hnone : ~ In MOVE_NONE (demo_legal_moves (Setup StartFEN false)))
    by (vm_compute; intuition discriminate).
  split; [exact Hin | split; [exact Hnone |]].
  apply (@to_move_format_move demo_position_api (Setup StartFEN false)
           demo_e2e4 Hin Hnone).
  intros m' Hm'. vm_compute in Hm'.
  repeat (destruct Hm' as [<- | Hm']; [vm_compute; intros E; first [reflexivity | discriminate E]|]).
  contradiction.
Defined.

(** With the king on f1 and the rook on h1 in normal chess, the castling move
    is written "f1g1", which is read back as the king's step to g1. *)
Lemma to_move_castling_counterexample :
  In (make CASTLING 5 7 NO_PIECE_TYPE)
     (@MoveList_LEGAL demo_position_api (Setup KingRookFEN false))
  /\ format_move (make CASTLING 5 7 NO_PIECE_TYPE) false = "f1g1"
  /\ fst (@to_move demo_position_api (Setup KingRookFEN false)
            (format_move (make CASTLING 5 7 NO_PIECE_TYPE)
               (@is_chess960 demo_position_api (Setup KingRookFEN false))))
     = make_move 5 6
  /\ make_move 5 6 <> make CASTLING 5 7 NO_PIECE_TYPE.
Proof.
  split; [vm_compute; tauto|].
  split; [reflexivity|]. split; [reflexivity | discriminate].
Qed.

(** ** Reading tokens off a stream *)

Lemma while_token_step {A : Type} (body : A -> string -> A) inp a :
  while_token body inp a =
  match extract_string inp with
  | (Some token, inp1) => while_token body inp1 (body a token)
  | (None, inp1) => (a, inp1)
  end.
Proof.
  funelim (while_token body inp a); rewrite e; reflexivity.
Qed.

Lemma while_token_ne_step {A : Type} stop (body : A -> string -> A) inp a :
  while_token_ne stop body inp a =
  match extract_string inp with
  | (Some token, inp1) =>
      if String.eqb token stop then (a, inp1)
      else while_token_ne stop body inp1 (body a token)
  | (None, inp1) => (a, inp1)
  end.
Proof.
  funelim (while_token_ne stop body inp a); rewrite e; reflexivity.
Qed.

Lemma position_moves_step `{PositionAPI} (pos : Position) states inp :
  position_moves pos states inp =
  match extract_string inp with
  | (Some token, inp1) =>
      if Move_eqb (fst (to_move pos token)) MOVE_NONE
      then (pos, states, inp1)
      else position_moves (do_move pos (fst (to_move pos token)))
             (st (do_move pos (fst (to_move pos token))) :: states) inp1
  | (None, inp1) => (pos, states, inp1)
  end.
Proof.
  funelim (position_moves pos states inp); rewrite e; reflexivity.
Qed.

Lemma go_loop_step `{PositionAPI} (pos : Position) inp limits :
  go_loop pos inp limits =
  match extract_string inp with
  | (Some token, inp1) =>
      go_loop pos (snd (go_token pos token inp1 limits))
        (fst (go_token pos token inp1 limits))
  | (None, inp1) => (limits, inp1)
  end.
Proof.
  funelim (go_loop pos inp limits); rewrite e; reflexivity.
Qed.

(** Induction over a stream, one token at a time. *)
Lemma stream_ind (P : istringstream -> Prop) :
  (forall inp,
      (forall token inp1, extract_string inp = (Some token, inp1) -> P inp1) ->
      P inp) ->
  forall inp, P inp.
Proof.
  intros step inp.
  remember (String.length (rdbuf inp)) as n eqn:En.
  revert inp En. induction n as [n IH] using lt_wf_ind. intros inp ->.
  apply step. intros token inp1 E.
  apply (IH (String.length (rdbuf inp1))); [|reflexivity].
  eapply extract_string_progress; eassumption.
Qed.

Lemma extract_string_fail_after inp inp1 :
  extract_string inp = (None, inp1) -> fail inp1 = true.
Proof.
  unfold extract_string. destruct (fail inp) eqn:Ef.
  - now intros [= <-].
  - destruct (skipws (rdbuf inp)); [|destruct (read_word _); discriminate].
    now intros [= <-].
Qed.

Lemma extract_string_of_failed inp :
  fail inp = true -> extract_string inp = (None, inp).
Proof. unfold extract_string. now intros ->. Qed.

Lemma tokens_acc inp :
  forall acc,
    fst (while_token (fun l token => (l ++ [token])%list) inp acc)
    = (acc ++ tokens inp)%list.
Proof.
  induction inp as [inp IH] using stream_ind. intros acc.
  unfold tokens. rewrite !(while_token_step (fun l token => (l ++ [token])%list)).
  destruct (extract_string inp) as [[token|] inp1] eqn:E; cbn [fst].
  - rewrite !(IH token inp1 eq_refl). now rewrite <- app_assoc.
  - now rewrite app_nil_r.
Qed.

Lemma tokens_step inp :
  tokens inp =
  match extract_string inp with
  | (Some token, inp1) => token :: tokens inp1
  | (None, _) => []
  end.
Proof.
  unfold tokens at 1. rewrite while_token_step.
  destruct (extract_string inp) as [[token|] inp1]; [|reflexivity].
  now rewrite tokens_acc.
Qed.

Lemma tokens_of_failed inp : fail inp = true -> tokens inp = [].
Proof.
  intros Hf. now rewrite tokens_step, (extract_string_of_failed _ Hf).
Qed.

(** [while (is >> token)] runs its body on every token left and leaves the
    stream failed. *)
Lemma while_token_fold {A : Type} (body : A -> string -> A) inp :
  forall a,
    fst (while_token body inp a) = fold_left body (tokens inp) a
    /\ fail (snd (while_token body inp a)) = true.
Proof.
  induction inp as [inp IH] using stream_ind. intros a.
  rewrite while_token_step, tokens_step.
  destruct (extract_string inp) as [[token|] inp1] eqn:E.
  - apply (IH token inp1 eq_refl).
  - split; [reflexivity|]. now apply extract_string_fail_after in E.
Qed.

(** ** Move lists read off a command line *)

Lemma position_moves_setup_moves `{PositionAPI} inp :
  forall (pos : Position) states,
    (let '(p, s, unread) := position_moves pos states inp in (p, s, tokens unread))
    = setup_moves pos states (tokens inp).
Proof.
  induction inp as [inp IH] using stream_ind. intros pos states.
  rewrite position_moves_step, (tokens_step inp).
  destruct (extract_string inp) as [[token|] inp1] eqn:E; cbn [setup_moves].
  - destruct (Move_eqb (fst (to_move pos token)) MOVE_NONE); [reflexivity|].
    apply (IH token inp1 eq_refl).
  - apply extract_string_fail_after in E. now rewrite (tokens_of_failed _ E).
Qed.

Lemma searchmoves_fold `{PositionAPI} (pos : Position) toks :
  forall limits,
    searchmoves
      (fold_left (fun l token => push_back_searchmove (fst (to_move pos token)) l)
         toks limits)
    = (searchmoves limits ++ List.map (fun token => fst (to_move pos token)) toks)%list.
Proof.
  induction toks as [|t toks IH]; intros limits; cbn [fold_left List.map].
  - now rewrite app_nil_r.
  - rewrite IH. destruct limits; cbn. now rewrite <- app_assoc.
Qed.

Lemma go_loop_of_failed `{PositionAPI} (pos : Position) inp limits :
  fail inp = true -> go_loop pos inp limits = (limits, inp).
Proof.
  intros Hf. now rewrite go_loop_step, (extract_string_of_failed _ Hf).
Qed.

(** C6.  The loop of [position] makes the moves its tokens name up to the
    first token for which [to_move] yields [MOVE_NONE]: nothing is made or
    pushed for that token and the tokens after it stay unread.  The loop that
    [go] runs after "searchmoves" reads every token to the end of the line
    and records what [to_move] yields for each, [MOVE_NONE] included. *)
Theorem move_list_callers `{PositionAPI} (pos : Position)
  (states : list StateInfo) (limits : LimitsType)
  (moves line rest : istringstream) :
  extract_string line = (Some "searchmoves", rest) ->
  (let '(p, s, unread) := position_moves pos states moves in (p, s, tokens unread))
  = setup_moves pos states (tokens moves)
  /\ searchmoves (fst (go_loop pos line limits))
     = (searchmoves limits
        ++ List.map (fun token => fst (to_move pos token)) (tokens rest))%list
  /\ tokens (snd (go_loop pos line limits)) = [].
Proof.
  intros E. split; [apply position_moves_setup_moves|].
  rewrite go_loop_step, E. unfold go_token. cbn [String.eqb Ascii.eqb Bool.eqb].
  cbv iota.
  destruct (while_token_fold
              (fun l token => push_back_searchmove (fst (to_move pos token)) l)
              rest limits) as [Hfst Hfail].
  rewrite (go_loop_of_failed _ _ _ Hfail). cbn [fst snd].
  rewrite Hfst, searchmoves_fold. split; [reflexivity|].
  now apply tokens_of_failed.
Qed.

(** "searchmoves e2e4 zzzz" in the start position. *)
Lemma move_list_callers_witness :
  extract_string (istringstream_of "searchmoves e2e4 zzzz")
  = (Some "searchmoves", mk_stream " e2e4 zzzz" false)
  /\ searchmoves
       (fst (@go_loop demo_position_api (Setup StartFEN false)
               (istringstream_of "searchmoves e2e4 zzzz") LimitsType_init))
     = [demo_e2e4; MOVE_NONE].
Proof.
  split; [reflexivity|].
  exact (proj1 (proj2
    (@move_list_callers demo_position_api (Setup StartFEN false) []
       LimitsType_init (istringstream_of "")
       (istringstream_of "searchmoves e2e4 zzzz")
       (mk_stream " e2e4 zzzz" false) eq_refl))).
Defined.

(** After "searchmoves", a token that names no legal move is recorded as
    [MOVE_NONE] and the tokens after it are still read. *)
Lemma searchmoves_counterexample :
  searchmoves
    (fst (@go_loop demo_position_api (Setup StartFEN false)
            (istringstream_of "searchmoves zzzz e2e4") LimitsType_init))
  = [MOVE_NONE; demo_e2e4].
Proof. reflexivity. Qed.

(** ** Numbers on the line of [go] *)

Lemma extract_string_good inp token inp1 :
  extract_string inp = (Some token, inp1) -> fail inp1 = false.
Proof.
  unfold extract_string. destruct (fail inp); [discriminate|].
  destruct (skipws (rdbuf inp)); [discriminate|].
  destruct (read_word _). now intros [= _ <-].
Qed.

Lemma extract_int_bad_number inp :
  fail inp = false -> bad_number (rdbuf inp) = true ->
  fst (extract_int inp) = Some 0 /\ fail (snd (extract_int inp)) = true.
Proof.
  unfold bad_number, number_prefix, extract_int. intros ->.
  destruct (skipws (rdbuf inp)) as [|c r]; [discriminate|].
  destruct (read_digits _) as [digits rest]. cbn [fst].
  destruct digits; [now split | discriminate].
Qed.

(** C5.  When the token after a numeric keyword of [go] does not start with
    a number, the keyword's field is left unset (0), nothing is reported, and
    the stream has failed: the loop ends there, so whatever follows on the
    line is not read and the other fields keep the values they had. *)
Theorem go_bad_number `{PositionAPI} (pos : Position) (limits : LimitsType)
  (line rest : istringstream) (token : string) (f : LimitsField) :
  extract_string line = (Some token, rest) ->
  numeric_keyword token = Some f ->
  bad_number (rdbuf rest) = true ->
  fst (go_loop pos line limits) = set_field f 0 limits
  /\ fail (snd (go_loop pos line limits)) = true.
Proof.
  intros E Hk Hbad.
  destruct (extract_int_bad_number rest (extract_string_good _ _ _ E) Hbad)
    as [Hv Hf].
  rewrite go_loop_step, E. unfold go_token.
  destruct (String.eqb_spec token "searchmoves") as [->|_]; [discriminate|].
  rewrite Hk. unfold extract_field.
  destruct (extract_int rest) as [[v|] inp1]; cbn [fst snd] in *; [|discriminate].
  injection Hv as ->. rewrite (go_loop_of_failed _ _ _ Hf). now split.
Qed.

(** "depth x wtime 1000": the depth stays unset, and so does the time. *)
Lemma go_bad_number_witness :
  extract_string (istringstream_of "depth x wtime 1000")
  = (Some "depth", mk_stream " x wtime 1000" false)
  /\ numeric_keyword "depth" = Some f_depth
  /\ bad_number " x wtime 1000" = true
  /\ fst (@go_loop demo_position_api (Setup StartFEN false)
            (istringstream_of "depth x wtime 1000") LimitsType_init)
     = LimitsType_init.
Proof.
  split; [reflexivity|]. split; [reflexivity|]. split; [reflexivity|].
  exact (proj1
    (@go_bad_number demo_position_api (Setup StartFEN false) LimitsType_init
       (istringstream_of "depth x wtime 1000")
       (mk_stream " x wtime 1000" false) "depth" f_depth
       eq_refl eq_refl eq_refl)).
Defined.

(** The time that follows a malformed depth is not read, although it is
    read on a line without the malformed argument. *)
Lemma go_bad_number_counterexample :
  time_WHITE
    (fst (@go_loop demo_position_api (Setup StartFEN false)
            (istringstream_of "depth x wtime 1000") LimitsType_init)) = 0
  /\ time_WHITE
       (fst (@go_loop demo_position_api (Setup StartFEN false)
               (istringstream_of "wtime 1000") LimitsType_init)) = 1000.
Proof. split; reflexivity. Qed.

(** ** Option names *)

Lemma count_char_app c (a b : string) :
  count_char c (a ++ b) = (count_char c a + count_char c b)%nat.
Proof. induction a as [|x a IH]; simpl; [reflexivity | rewrite IH; lia]. Qed.

Lemma count_char_absent c (s : string) :
  ~ In c (chars s) -> count_char c s = 0%nat.
Proof.
  induction s as [|a s IH]; simpl; intros Hn; [reflexivity|].
  destruct (Ascii.eqb_spec a c) as [->|_]; [exfalso; apply Hn; now left|].
  apply IH. intros Hin. apply Hn. now right.
Qed.

(** [while (is >> token && token != stop)] runs its body on the tokens
    before the first [stop]; the tokens after it are left on the stream. *)
Lemma while_token_ne_fold {A : Type} stop (body : A -> string -> A) inp :
  forall a,
    fst (while_token_ne stop body inp a)
    = fold_left body (take_until stop (tokens inp)) a
    /\ tokens (snd (while_token_ne stop body inp a))
       = drop_after stop (tokens inp).
Proof.
  induction inp as [inp IH] using stream_ind. intros a.
  rewrite while_token_ne_step, (tokens_step inp).
  destruct (extract_string inp) as [[token|] inp1] eqn:E;
    cbn [take_until drop_after].
  - destruct (String.eqb token stop); [now split|].
    apply (IH token inp1 eq_refl).
  - split; [reflexivity|]. apply extract_string_fail_after in E.
    now apply tokens_of_failed.
Qed.

Lemma read_word_no_space (s : string) : no_space (fst (read_word s)).
Proof.
  induction s as [|a s IH]; simpl; [intros c []|].
  destruct (isspace a) eqn:Ea; [intros c []|].
  destruct (read_word s) as [w r]. simpl in *.
  intros c [<-|Hc]; [exact Ea | now apply IH].
Qed.

Lemma extract_string_no_space inp token inp1 :
  extract_string inp = (Some token, inp1) -> no_space token.
Proof.
  unfold extract_string. destruct (fail inp); [discriminate|].
  destruct (skipws (rdbuf inp)) as [|c r]; [discriminate|].
  pose proof (read_word_no_space (String c r)) as Hw.
  destruct (read_word (String c r)) as [w r']. now intros [= <- _].
Qed.

(** A token holds no white space. *)
Lemma tokens_no_space inp : Forall no_space (tokens inp).
Proof.
  induction inp as [inp IH] using stream_ind. rewrite tokens_step.
  destruct (extract_string inp) as [[token|] inp1] eqn:E; [|constructor].
  constructor; [eapply extract_string_no_space; eassumption|].
  apply (IH token inp1 eq_refl).
Qed.

Lemma take_until_Forall {P : string -> Prop} stop toks :
  Forall P toks -> Forall P (take_until stop toks).
Proof.
  induction 1 as [|t toks Ht _ IH]; simpl; [constructor|].
  destruct (String.eqb t stop); now constructor.
Qed.

Lemma skipn_Forall {P : string -> Prop} n (toks : list string) :
  Forall P toks -> Forall P (skipn n toks).
Proof.
  revert toks. induction n as [|n IH]; intros toks H; [exact H|].
  destruct H; [constructor | now apply IH].
Qed.

Lemma join_no_newline (toks : list string) :
  Forall no_space toks -> ~ In newline (chars (join toks)).
Proof.
  unfold join.
  assert (G : forall acc, ~ In newline (chars acc) -> Forall no_space toks ->
              ~ In newline
                  (chars (fold_left (fun name token => name ++ separator name ++ token)
                            toks acc))).
  { induction toks as [|t toks IH]; intros acc Hacc Hall; [exact Hacc|].
    inversion Hall as [|? ? Ht Hrest]; subst. cbn [fold_left]. apply IH; [|exact Hrest].
    rewrite !chars_app. intros Hin.
    apply in_app_or in Hin. destruct Hin as [Hin|Hin]; [now apply Hacc|].
    apply in_app_or in Hin. destruct Hin as [Hin|Hin].
    - destruct acc; simpl in Hin; [contradiction|].
      destruct Hin as [Hin|[]]. discriminate Hin.
    - apply Ht in Hin. discriminate Hin. }
  intros Hall. apply G; [intros []| exact Hall].
Qed.

Lemma setoption_parse_name inp :
  fst (fst (setoption_parse inp))
  = join (take_until "value" (skipn 1 (tokens inp))).
Proof.
  unfold setoption_parse, join. rewrite (tokens_step inp).
  destruct (extract_string inp) as [otoken inp1] eqn:E.
  destruct (while_token_ne_fold "value"
              (fun name token => name ++ separator name ++ token) inp1 "")
    as [Hname _].
  destruct (while_token_ne "value" _ inp1 "") as [name inp2].
  destruct (while_token _ inp2 "") as [value inp3]. cbn [fst snd] in *.
  destruct otoken as [token|]; cbn [skipn]; [exact Hname|].
  apply extract_string_fail_after in E.
  rewrite Hname, (tokens_of_failed _ E). reflexivity.
Qed.

(** C8.  A [setoption] line whose option name (the tokens between "name"
    and "value", joined with single spaces) is not in the option table leaves
    the table as it is and writes the single line "No such option: <name>". *)
Theorem setoption_unknown `{Collaborators} (s : State) (cmd : string)
  (inp : istringstream) :
  extract_string (istringstream_of cmd) = (Some "setoption", inp) ->
  let name := join (take_until "value" (skipn 1 (tokens inp))) in
  Options_count (Options s) name = false ->
  Options (command s cmd) = Options s
  /\ cout (command s cmd) = cout s ++ ("No such option: " ++ name) ++ endl
  /\ count_char newline (("No such option: " ++ name) ++ endl) = 1%nat.
Proof.
  intros E name Hcount. unfold command. rewrite E.
  cbn [token_of String.eqb Ascii.eqb Bool.eqb orb]. cbv iota.
  unfold setoption. pose proof (setoption_parse_name inp) as Hname.
  destruct (setoption_parse inp) as [[name' value] inp3]. cbn [fst] in Hname.
  fold name in Hname. subst name'. rewrite Hcount. cbn [fst].
  split; [reflexivity | split; [reflexivity|]].
  rewrite !count_char_app. cbn [count_char]. 
  rewrite (count_char_absent newline name).
  - reflexivity.
  - apply join_no_newline, take_until_Forall, skipn_Forall, tokens_no_space.
Qed.

(** "setoption name Foo Bar value 1 2" with the options of the example. *)
Lemma setoption_unknown_witness :
  extract_string (istringstream_of "setoption name Foo Bar value 1 2")
  = (Some "setoption", mk_stream " name Foo Bar value 1 2" false)
  /\ @Options_count _ demo_collaborators (Options demo_init) "Foo Bar" = false
  /\ Options (command demo_init "setoption name Foo Bar value 1 2")
     = Options demo_init
  /\ cout (command demo_init "setoption name Foo Bar value 1 2")
     = cout demo_init ++ "No such option: Foo Bar" ++ endl.
Proof.
  split; [reflexivity|]. split; [reflexivity|].
  pose proof (@setoption_unknown _ demo_collaborators demo_init
                "setoption name Foo Bar value 1 2"
                (mk_stream " name Foo Bar value 1 2" false) eq_refl eq_refl)
    as [H1 [H2 _]].
  split; [exact H1 | exact H2].
Defined.

(** ** The check suffix of [move_to_san] *)

(** What [move_to_san] does around the mate test, for any position whose
    [undo_move] takes [do_move] back. *)
Lemma move_to_san_probe `{PositionAPI} (pos : Position) (m : Move) :
  m <> MOVE_NONE -> m <> MOVE_NULL ->
  undo_move (do_move pos m) m = pos ->
  gives_check pos m = negb (N.eqb (checkers (do_move pos m)) 0) ->
  fst (move_to_san pos m) =
    san_text pos m ++
    (if N.eqb (checkers (do_move pos m)) 0 then ""
     else match MoveList_LEGAL (do_move pos m) with
          | [] => "#"
          | _ :: _ => "+"
          end)
  /\ snd (move_to_san pos m) = pos.
Proof.
  intros Hnone Hnull Hundo Hcheck. split.
  - unfold move_to_san, Move_eqb.
    destruct (Move_eq_dec m MOVE_NONE) as [|_]; [contradiction|].
    destruct (Move_eq_dec m MOVE_NULL) as [|_]; [contradiction|].
    rewrite Hcheck.
    destruct (N.eqb (checkers (do_move pos m)) 0); cbn [negb fst].
    + now rewrite string_app_nil_r.
    + destruct (MoveList_LEGAL (do_move pos m)); reflexivity.
  - unfold move_to_san.
    destruct (Move_eqb m MOVE_NONE), (Move_eqb m MOVE_NULL); try reflexivity.
    destruct (gives_check pos m); [exact Hundo | reflexivity].
Qed.

(** Undoing a move that was just made gives the position back. *)
Lemma undoable_undo_do `{PositionAPI} (pos : UndoablePosition) (m : Move) :
  @undo_move undoable_position_api (@do_move undoable_position_api pos m) m
  = pos.
Proof. destruct pos as [p before]. reflexivity. Qed.

(** C3.  For a legal move [m] for which [gives_check] tells whether the
    position after [m] is in check, [move_to_san] appends "+" to the move
    text when the position after [m] is in check and has a legal reply, "#"
    when it is in check and has none, and nothing when it is not in check;
    and, the probing move being made and undone, it leaves the position as it
    found it, with the same key and the same legal moves. *)
Theorem move_to_san_check_suffix `{PositionAPI} (pos : UndoablePosition)
  (m : Move) :
  In m (MoveList_LEGAL (current pos)) ->
  m <> MOVE_NONE -> m <> MOVE_NULL ->
  gives_check (current pos) m
  = negb (N.eqb (checkers (do_move (current pos) m)) 0) ->
  fst (@move_to_san undoable_position_api pos m) =
    @san_text undoable_position_api pos m ++
    (if N.eqb (checkers (do_move (current pos) m)) 0 then ""
     else match MoveList_LEGAL (do_move (current pos) m) with
          | [] => "#"
          | _ :: _ => "+"
          end)
  /\ snd (@move_to_san undoable_position_api pos m) = pos
  /\ @key undoable_position_api (snd (@move_to_san undoable_position_api pos m))
     = @key undoable_position_api pos
  /\ @MoveList_LEGAL undoable_position_api
       (snd (@move_to_san undoable_position_api pos m))
     = @MoveList_LEGAL undoable_position_api pos.
Proof.
  intros _ Hnone Hnull Hcheck.
  destruct (@move_to_san_probe undoable_position_api pos m Hnone Hnull
              (undoable_undo_do pos m) Hcheck) as [Htext Hpos].
  split; [exact Htext|]. rewrite Hpos. repeat split.
Qed.

(** Rook a1 to d1 against the king on d8: check, and the king has moves. *)
Lemma move_to_san_check_suffix_witness :
  In demo_Ra1d1 (demo_legal_moves (Setup RooksFEN false))
  /\ fst (@move_to_san (@undoable_position_api demo_position_api)
            (@mk_undoable demo_position_api (Setup RooksFEN false) [])
            demo_Ra1d1)
     = "Rad1+"
  /\ snd (@move_to_san (@undoable_position_api demo_position_api)
            (@mk_undoable demo_position_api (Setup RooksFEN false) [])
            demo_Ra1d1)
     = @mk_undoable demo_position_api (Setup RooksFEN false) [].
Proof.
  assert (Hin : In demo_Ra1d1 (demo_legal_moves (Setup RooksFEN false)))
    by (vm_compute; tauto).
  assert (Hnone : demo_Ra1d1 <> MOVE_NONE) by discriminate.
  assert (Hnull : demo_Ra1d1 <> MOVE_NULL) by discriminate.
  assert (Hcheck : demo_gives_check (Setup RooksFEN false) demo_Ra1d1
                   = negb (N.eqb (demo_checkers
                                    (Moved (Setup RooksFEN false) demo_Ra1d1)) 0))
    by (unfold demo_gives_check; reflexivity).
  pose proof (@move_to_san_check_suffix demo_position_api
                (@mk_undoable demo_position_api (Setup RooksFEN false) [])
                demo_Ra1d1 Hin Hnone Hnull Hcheck) as [H1 [H2 _]].
  split; [exact Hin | split; [| exact H2]].
  rewrite H1. vm_compute. reflexivity.
Defined.

(** ** Disambiguation in [move_to_san] *)

Lemma pop_lsb_pos_spec (p : positive) :
  N.testbit (Npos p) (fst (pop_lsb_pos p)) = true
  /\ forall j, N.testbit (snd (pop_lsb_pos p)) j
               = (N.testbit (Npos p) j && negb (N.eqb j (fst (pop_lsb_pos p))))%bool.
Proof.
  induction p as [q IH | q IH |]; cbn [pop_lsb_pos].
  - split; [reflexivity|]. cbn [fst snd]. intros [|j]; [reflexivity|].
    cbn. now rewrite andb_true_r.
  - destruct (pop_lsb_pos q) as [i r]. cbn [fst snd] in *. destruct IH as [Hi Hr].
    assert (E : Npos q~0 = (2 * Npos q)%N) by reflexivity. rewrite E.
    rewrite (N.double_spec r). split.
    + now rewrite N.double_bits_succ.
    + intros j. destruct (N.eq_dec j 0) as [->|Hj].
      * rewrite !N.testbit_even_0. reflexivity.
      * rewrite <- (N.succ_pred j Hj), !N.double_bits_succ, Hr. f_equal. f_equal.
        destruct (N.eqb_spec (N.pred j) i), (N.eqb_spec (N.succ (N.pred j)) (N.succ i));
          try reflexivity; lia.
  - split; [reflexivity|]. intros [|j]; [reflexivity|]. now destruct j.
Qed.

(** What the loop of [move_to_san] leaves in [others]. *)
Lemma san_prune_bits (is_legal : Square -> bool) (b others : Bitboard) (j : N) :
  N.testbit (san_prune is_legal b others) j
  = xorb (N.testbit others j) (N.testbit b j && negb (is_legal (Z.of_N j))).
Proof.
  revert j. funelim (san_prune is_legal b others); intros j.
  - now rewrite N.bits_0, xorb_false_r.
  - rewrite H. unfold pop_lsb.
    destruct (pop_lsb_pos_spec p) as [Hi Hr].
    destruct (pop_lsb_pos p) as [i r]. cbn [fst snd] in *.
    rewrite Hr. destruct (N.eqb_spec j i) as [->|Hj].
    + rewrite Hi. cbn [andb negb]. rewrite xorb_false_r.
      destruct (is_legal (Z.of_N i)); cbn [negb].
      * now rewrite xorb_false_r.
      * rewrite N.lxor_spec. f_equal. unfold SquareBB.
        rewrite N2Z.id, N.shiftl_1_l. apply N.pow2_bits_true.
    + rewrite andb_true_r.
      destruct (is_legal (Z.of_N i)); [reflexivity|].
      rewrite N.lxor_spec. unfold SquareBB.
      rewrite N2Z.id, N.shiftl_1_l, N.pow2_bits_false by congruence.
      now rewrite xorb_false_r.
Qed.

Lemma all_squares_spec (s : Square) : In s all_squares <-> 0 <= s < 64.
Proof.
  unfold all_squares. rewrite in_map_iff. split.
  - intros (n & <- & Hn). apply in_seq in Hn. lia.
  - intros Hs. exists (Z.to_nat s). split; [lia|]. apply in_seq. lia.
Qed.

(** On the board, [file_bb] and [rank_bb] hold the squares of the file and
    of the rank of their argument. *)
Lemma file_rank_bb_table :
  forallb (fun from =>
    forallb (fun s =>
      Bool.eqb (N.testbit (file_bb from) (Z.to_N s)) (file_of s =? file_of from)
      && Bool.eqb (N.testbit (rank_bb from) (Z.to_N s)) (rank_of s =? rank_of from))
      all_squares) all_squares = true.
Proof. vm_compute. reflexivity. Qed.

Lemma file_rank_bb_bits (from s : Square) :
  0 <= from < 64 -> 0 <= s < 64 ->
  N.testbit (file_bb from) (Z.to_N s) = (file_of s =? file_of from)
  /\ N.testbit (rank_bb from) (Z.to_N s) = (rank_of s =? rank_of from).
Proof.
  intros Hf Hs. pose proof file_rank_bb_table as T.
  rewrite forallb_forall in T. specialize (T from (proj2 (all_squares_spec _) Hf)).
  rewrite forallb_forall in T. specialize (T s (proj2 (all_squares_spec _) Hs)).
  apply andb_true_iff in T. destruct T as [T1 T2].
  apply Bool.eqb_prop in T1, T2. now split.
Qed.

Lemma bitboard_high_bits (b : Bitboard) (j : N) :
  (b < 2 ^ 64)%N -> (64 <= j)%N -> N.testbit b j = false.
Proof.
  intros Hb Hj. destruct (N.eq_dec b 0) as [->|Hnz]; [apply N.bits_0|].
  apply N.bits_above_log2. apply N.log2_lt_pow2 in Hb; lia.
Qed.

Lemma bitboard_zero (b : Bitboard) :
  N.eqb b 0 = true <-> forall j, N.testbit b j = false.
Proof.
  rewrite N.eqb_eq. split.
  - intros -> j. apply N.bits_0.
  - intros Hb. apply N.bits_inj_0. exact Hb.
Qed.

Lemma bool_eq_iff (a b : bool) : (a = true <-> b = true) -> a = b.
Proof. destruct a, b; intuition congruence. Qed.

Section Disambiguation.

Context `{PositionAPI}.
Variables (pos : Position) (m : Move).

Let us := side_to_move pos.
Let from := from_sq m.
Let to := to_sq m.
Let pc := piece_on pos from.
Let pt := type_of_piece pc.

Let candidate (s : Square) : bool :=
  N.testbit (attacks_from pos pc to) (Z.to_N s)
  && N.testbit (pieces pos us pt) (Z.to_N s)
  && negb (s =? from)
  && legal pos (make_move s to) (pinned_pieces pos us).

(** The origin is a square of the board, the bitboard of the mover's
    fellow pieces has sixty-four bits, and the mover is one of them and
    attacks the destination. *)
Hypothesis from_on_board : 0 <= from < 64.
Hypothesis pieces_64 : (pieces pos us pt < 2 ^ 64)%N.
Hypothesis mover_attacks :
  N.testbit (N.land (attacks_from pos pc to) (pieces pos us pt)) (Z.to_N from)
  = true.

Lemma san_others_bits (j : N) :
  N.testbit (san_others pos m) j = candidate (Z.of_N j).
Proof.
  unfold san_others, candidate. fold us from to pc pt.
  rewrite san_prune_bits, N2Z.id.
  set (ok := legal pos (make_move (Z.of_N j) to) (pinned_pieces pos us)).
  rewrite N.lxor_spec, N.land_spec. unfold SquareBB.
  rewrite N.shiftl_1_l, N.pow2_bits_eqb.
  destruct (N.eqb_spec (Z.to_N from) j) as [<-|Hj].
  - pose proof mover_attacks as Hm. rewrite N.land_spec in Hm. rewrite Hm.
    rewrite Z2N.id by lia. rewrite Z.eqb_refl. reflexivity.
  - destruct (Z.eqb_spec (Z.of_N j) from) as [E|_].
    + exfalso. apply Hj. rewrite <- E. now rewrite N2Z.id.
    + rewrite xorb_false_r.
      destruct (N.testbit (attacks_from pos pc to) j && N.testbit (pieces pos us pt) j),
        ok; reflexivity.
Qed.

Lemma candidate_on_board (j : N) :
  candidate (Z.of_N j) = true -> (j < 64)%N.
Proof.
  unfold candidate. rewrite N2Z.id. intros Hc.
  destruct (N.lt_ge_cases j 64) as [|Hge]; [assumption|].
  rewrite (bitboard_high_bits _ _ pieces_64 Hge) in Hc.
  rewrite andb_false_r in Hc. discriminate.
Qed.

Lemma san_candidates_spec (s : Square) :
  In s (san_candidates pos m) <-> 0 <= s < 64 /\ candidate s = true.
Proof.
  unfold san_candidates. rewrite filter_In, all_squares_spec. reflexivity.
Qed.

Lemma san_others_empty :
  N.eqb (san_others pos m) 0 = true <-> san_candidates pos m = [].
Proof.
  rewrite bitboard_zero. split.
  - intros Hz. destruct (san_candidates pos m) as [|s l] eqn:E; [reflexivity|].
    assert (Hs : In s (san_candidates pos m)) by (rewrite E; now left).
    apply san_candidates_spec in Hs. destruct Hs as [Hs Hc].
    specialize (Hz (Z.to_N s)). rewrite san_others_bits, Z2N.id in Hz by lia.
    congruence.
  - intros E j. rewrite san_others_bits.
    destruct (candidate (Z.of_N j)) eqn:Hc; [|reflexivity].
    assert (Hin : In (Z.of_N j) (san_candidates pos m)).
    { apply san_candidates_spec. split; [|exact Hc].
      apply candidate_on_board in Hc. lia. }
    rewrite E in Hin. contradiction.
Qed.

Lemma san_others_meet (B : Bitboard) (q : Square -> bool) :
  (forall s, 0 <= s < 64 -> N.testbit B (Z.to_N s) = q s) ->
  N.eqb (N.land (san_others pos m) B) 0
  = forallb (fun s => negb (q s)) (san_candidates pos m).
Proof.
  intros HB. apply bool_eq_iff. rewrite bitboard_zero, forallb_forall. split.
  - intros Hz s Hs. apply san_candidates_spec in Hs. destruct Hs as [Hs Hc].
    specialize (Hz (Z.to_N s)).
    rewrite N.land_spec, san_others_bits, Z2N.id, Hc, (HB s Hs) in Hz by lia.
    cbn in Hz. now rewrite Hz.
  - intros Hq j. rewrite N.land_spec, san_others_bits.
    destruct (candidate (Z.of_N j)) eqn:Hc; [|reflexivity].
    pose proof (candidate_on_board j Hc) as Hj.
    assert (Hin : In (Z.of_N j) (san_candidates pos m)).
    { apply san_candidates_spec. split; [lia | exact Hc]. }
    specialize (Hq _ Hin). rewrite <- (HB (Z.of_N j)) in Hq by lia.
    rewrite N2Z.id in Hq. cbn. now destruct (N.testbit B j).
Qed.

(** C4.  For a legal move [m] that is not a castling move, of a piece that
    is not a pawn, [move_to_san] writes the piece letter and then the
    disambiguator the specification asks for, computed from the pieces of
    the mover's type and colour, other than the mover, that can legally go
    to the destination: nothing when there is none, else the origin's file
    letter when none of them is on the origin's file, else the origin's
    rank digit when none of them is on the origin's rank, else the origin
    square.  The capture mark, the destination, the promotion and the
    check mark follow. *)
Theorem move_to_san_disambiguation :
  In m (MoveList_LEGAL pos) ->
  m <> MOVE_NONE -> m <> MOVE_NULL ->
  type_of m <> CASTLING ->
  pt <> PAWN ->
  fst (move_to_san pos m) =
    String (char_at " PNBRQK" (PieceType_index pt))
      (san_disambiguator pos m
       ++ (if capture pos m then "x" else "")
       ++ format_square to
       ++ (if MoveType_eqb (type_of m) PROMOTION
           then "=" ++ String (char_at " PNBRQK"
                                 (PieceType_index (promotion_type m))) ""
           else "")
       ++ (if gives_check pos m
           then if Nat.eqb (List.length (MoveList_LEGAL (do_move pos m))) 0
                then "#" else "+"
           else "")).
Proof.
  intros _ Hnone Hnull Hcastle Hpawn.
  assert (Htext :
    san_text pos m =
      String (char_at " PNBRQK" (PieceType_index pt))
        (san_disambiguator pos m
         ++ (if capture pos m then "x" else "")
         ++ format_square to
         ++ (if MoveType_eqb (type_of m) PROMOTION
             then "=" ++ String (char_at " PNBRQK"
                                   (PieceType_index (promotion_type m))) ""
             else ""))).
  { unfold san_text. fold from to pc pt.
    replace (MoveType_eqb (type_of m) CASTLING) with false
      by (destruct (type_of m); try reflexivity; congruence).
    replace (PieceType_eqb pt PAWN) with false
      by (destruct pt; try reflexivity; congruence).
    cbn [negb PieceToChar].
    assert (Hd :
      (if N.eqb (san_others pos m) 0
       then String (char_at " PNBRQK" (PieceType_index pt)) ""
       else if N.eqb (N.land (san_others pos m) (file_bb from)) 0
       then String (char_at " PNBRQK" (PieceType_index pt)) ""
            ++ String (file_char from) ""
       else if N.eqb (N.land (san_others pos m) (rank_bb from)) 0
       then String (char_at " PNBRQK" (PieceType_index pt)) ""
            ++ String (rank_char from) ""
       else String (char_at " PNBRQK" (PieceType_index pt)) ""
            ++ format_square from)
      = String (char_at " PNBRQK" (PieceType_index pt)) (san_disambiguator pos m)).
    { unfold san_disambiguator. fold from.
      rewrite (san_others_meet (file_bb from) (fun s => file_of s =? file_of from))
        by (intros s Hs; apply (file_rank_bb_bits from s from_on_board Hs)).
      rewrite (san_others_meet (rank_bb from) (fun s => rank_of s =? rank_of from))
        by (intros s Hs; apply (file_rank_bb_bits from s from_on_board Hs)).
      destruct (N.eqb (san_others pos m) 0) eqn:E.
      - apply san_others_empty in E. now rewrite E.
      - destruct (san_candidates pos m) as [|s l] eqn:Ec.
        + apply san_others_empty in Ec. congruence.
        + destruct (forallb _ (s :: l)); [reflexivity|].
          destruct (forallb _ (s :: l)); reflexivity. }
    rewrite Hd. clear Hd.
    generalize (san_disambiguator pos m) (format_square to)
      (char_at " PNBRQK" (PieceType_index (promotion_type m))).
    intros d sq c.
    destruct (capture pos m), (MoveType_eqb (type_of m) PROMOTION);
      cbn [append]; rewrite ?string_app_assoc, ?string_app_nil_r;
      cbn [append]; reflexivity. }
  unfold move_to_san, Move_eqb.
  destruct (Move_eq_dec m MOVE_NONE) as [|_]; [contradiction|].
  destruct (Move_eq_dec m MOVE_NULL) as [|_]; [contradiction|].
  rewrite Htext. clear Htext.
  generalize (san_disambiguator pos m) (format_square to)
    (char_at " PNBRQK" (PieceType_index (promotion_type m))).
  intros d sq c.
  destruct (gives_check pos m); cbn [fst append];
    rewrite ?string_app_assoc, ?string_app_nil_r; [reflexivity|].
  destruct (capture pos m), (MoveType_eqb (type_of m) PROMOTION);
    cbn [append]; rewrite ?string_app_nil_r; reflexivity.
Qed.

End Disambiguation.

(** C4 at work: rook a1 to d1 with the other rook on h1 is "Rad1+". *)
Lemma move_to_san_disambiguation_witness :
  0 <= from_sq demo_Ra1d1 < 64
  /\ In demo_Ra1d1 (demo_legal_moves (Setup RooksFEN false))
  /\ @san_candidates demo_position_api (Setup RooksFEN false) demo_Ra1d1 = [7]
  /\ fst (@move_to_san demo_position_api (Setup RooksFEN false) demo_Ra1d1)
     = "Rad1+".
Proof.
  assert (Hb : 0 <= from_sq demo_Ra1d1 < 64) by (cbn; lia).
  assert (Hin : In demo_Ra1d1 (demo_legal_moves (Setup RooksFEN false)))
    by (vm_compute; tauto).
  assert (Hnone : demo_Ra1d1 <> MOVE_NONE) by discriminate.
  assert (Hnull : demo_Ra1d1 <> MOVE_NULL) by discriminate.
  assert (Hcastle : type_of demo_Ra1d1 <> CASTLING) by discriminate.
  pose proof (@move_to_san_disambiguation demo_position_api
                (Setup RooksFEN false) demo_Ra1d1 Hb) as T.
  match type of T with
  | ?A -> _ => assert (H64 : A) by (vm_compute; reflexivity);
               specialize (T H64)
  end.
  match type of T with
  | ?A -> _ => assert (Hmover : A) by (vm_compute; reflexivity);
               specialize (T Hmover)
  end.
  specialize (T Hin Hnone Hnull Hcastle).
  match type of T with
  | ?A -> _ => assert (Hpawn : A) by (vm_compute; discriminate);
               specialize (T Hpawn)
  end.
  split; [exact Hb | split; [exact Hin | split; [vm_compute; reflexivity|]]].
  rewrite T. vm_compute. reflexivity.
Defined.

(** ** The held position *)

Lemma position_pos `{Collaborators} (s : State) (inp : istringstream) :
  pos (fst (position s inp)) =
  match tokens inp with
  | arg :: rest =>
      if String.eqb arg "startpos"
      then position_described (Options s) (StartFEN, skipn 1 rest)
      else if String.eqb arg "fen"
      then position_described (Options s)
             (fold_left (fun fen token => fen ++ token ++ " ")
                (take_until "moves" rest) "",
              drop_after "moves" rest)
      else pos s
  | [] => pos s
  end.
Proof.
  unfold position, position_described. rewrite (tokens_step inp).
  destruct (extract_string inp) as [[arg|] inp1] eqn:E; cbn [token_of fst snd];
    [|reflexivity].
  destruct (String.eqb arg "startpos").
  - rewrite (tokens_step inp1).
    destruct (extract_string inp1) as [o inp2] eqn:E2.
    assert (Ht : tokens inp2 = skipn 1 (match o with
                                        | Some token => token :: tokens inp2
                                        | None => []
                                        end)).
    { destruct o; [reflexivity|]. apply extract_string_fail_after in E2.
      now apply tokens_of_failed. }
    rewrite <- Ht.
    pose proof (position_moves_setup_moves inp2
                  (Position_set StartFEN
                     (negb (Options_int (Options s) "UCI_Chess960" =? 0))) [])
      as L.
    destruct (position_moves _ [] inp2) as [[p' states] inp3].
    rewrite <- L. reflexivity.
  - destruct (String.eqb arg "fen"); [|reflexivity].
    destruct (while_token_ne_fold "moves"
                (fun fen token => fen ++ token ++ " ") inp1 "") as [Hfen Hrest].
    destruct (while_token_ne "moves" _ inp1 "") as [fen inp2].
    cbn [fst snd] in Hfen, Hrest. rewrite <- Hfen, <- Hrest.
    pose proof (position_moves_setup_moves inp2
                  (Position_set fen
                     (negb (Options_int (Options s) "UCI_Chess960" =? 0))) [])
      as L.
    destruct (position_moves _ [] inp2) as [[p' states] inp3].
    rewrite <- L. reflexivity.
Qed.

Lemma go_pos `{Collaborators} (s : State) inp : pos (fst (go s inp)) = pos s.
Proof. unfold go. now destruct (go_loop (pos s) inp LimitsType_init). Qed.

Lemma setoption_pos `{Collaborators} (s : State) inp :
  pos (fst (setoption s inp)) = pos s.
Proof.
  unfold setoption. destruct (setoption_parse inp) as [[name value] inp3].
  now destruct (Options_count (Options s) name).
Qed.

(** What one command line does to the held position. *)
Lemma command_pos `{Collaborators} (s : State) (cmd : string) :
  pos (command s cmd) =
  match position_command cmd with
  | Some fen_moves => position_described (Options s) fen_moves
  | None => if is_flip cmd then flip (pos s) else pos s
  end.
Proof.
  unfold command, position_command, is_flip.
  rewrite (tokens_step (istringstream_of cmd)).
  destruct (extract_string (istringstream_of cmd)) as [[token|] inp] eqn:E;
    cbn [token_of]; [|reflexivity].
  destruct (String.eqb_spec token "position") as [->|Hp].
  - cbn [String.eqb Ascii.eqb Bool.eqb orb]. cbv iota.
    rewrite position_pos. destruct (tokens inp) as [|arg rest]; [reflexivity|].
    destruct (String.eqb arg "startpos"); [reflexivity|].
    destruct (String.eqb arg "fen"); reflexivity.
  - assert (Hnone : match tokens inp with
                    | [] => None
                    | arg :: rest =>
                        if false then
                          if String.eqb arg "startpos"
                          then Some (StartFEN, skipn 1 rest)
                          else if String.eqb arg "fen"
                          then Some (fold_left (fun fen token => fen ++ token ++ " ")
                                       (take_until "moves" rest) "",
                                     drop_after "moves" rest)
                          else None
                        else None
                    end = @None (string * list string))
      by (now destruct (tokens inp)).
    rewrite Hnone. clear Hnone.
    destruct (String.eqb_spec token "flip") as [->|Hf]; [reflexivity|].
    destruct (String.eqb token "quit" || String.eqb token "stop"
              || String.eqb token "ponderhit").
    { now destruct (negb (String.eqb token "ponderhit") || Signals_stopOnPonderhit s). }
    destruct (String.eqb token "perft").
    { now destruct (extract_int inp) as [[d|] inp1]. }
    destruct (String.eqb token "key"); [reflexivity|].
    destruct (String.eqb token "uci"); [reflexivity|].
    destruct (String.eqb token "ucinewgame"); [reflexivity|].
    destruct (String.eqb token "go"); [apply go_pos|].
    destruct (String.eqb token "setoption"); [apply setoption_pos|].
    destruct (String.eqb token "bench"); [reflexivity|].
    destruct (String.eqb token "d"); [reflexivity|].
    destruct (String.eqb token "isready"); [reflexivity|].
    destruct (String.eqb token "eval"); reflexivity.
Qed.

Lemma held_position_step `{Collaborators} (acts : list Activity) :
  forall (s : State) (start : Position) (n : nat),
    pos s = Nat.iter n flip start ->
    pos (run s acts)
    = Nat.iter (flips_since n acts) flip (expected_position s start acts).
Proof.
  induction acts as [|a acts IH]; intros s start n Hinv; [exact Hinv|].
  cbn [run fold_left expected_position flips_since]. fold (run (step s a) acts).
  destruct a as [cmd | stop stopOnPonderhit ponder]; cbn [step].
  - pose proof (command_pos s cmd) as Hc.
    destruct (position_command cmd) as [fen_moves|].
    + apply IH. exact Hc.
    + apply IH. rewrite Hc.
      destruct (is_flip cmd); [cbn [Nat.iter]; now rewrite Hinv | exact Hinv].
  - apply IH. exact Hinv.
Qed.

(** C2.  Between command lines, the held position is the position described
    by the last accepted [position] command (its FEN set up, its moves made
    up to the first token that names no legal move), or the start position
    if there was none, mirrored once for every [flip] command processed
    since; without a [flip] since, it is that position itself. *)
Theorem held_position_invariant `{Collaborators} (s0 : State)
  (acts : list Activity) :
  pos (run (commandInit s0) acts)
  = Nat.iter (flips_since 0 acts) flip
      (expected_position (commandInit s0) (Position_set StartFEN false) acts).
Proof. apply held_position_step. reflexivity. Qed.

(** After "flip" the held position is the mirrored start position, although
    no [position] command has been accepted. *)
Lemma flip_counterexample :
  position_command "flip" = None
  /\ pos (run demo_init [Line "flip"]) = Flipped (Setup StartFEN false)
  /\ pos (run demo_init [Line "flip"]) <> @Position_set demo_position_api StartFEN false.
Proof. split; [reflexivity|]. split; [reflexivity | discriminate]. Qed.

(** * Further properties of the code *)

(** ** Squares and moves in coordinate notation *)

Lemma Z_of_ascii_of_Z (z : Z) : 0 <= z < 256 -> Z_of_ascii (ascii_of_Z z) = z.
Proof.
  intros Hz. unfold Z_of_ascii, ascii_of_Z.
  rewrite Z.mod_small by exact Hz.
  rewrite N_ascii_embedding; [lia|].
  change 256%N with (Z.to_N 256). apply Z2N.inj_lt; lia.
Qed.

Lemma square_of_file_rank (s : Square) :
  0 <= s < 64 -> 0 <= file_of s < 8 /\ 0 <= rank_of s < 8.
Proof.
  intros Hs. destruct (square_decompose s) as [E Hf]. split; [exact Hf|].
  rewrite rank_of_div in *. split.
  - apply Z.div_pos; lia.
  - apply Z.div_lt_upper_bound; lia.
Qed.

Lemma format_square_chars (s : Square) :
  0 <= s < 64 ->
  exists c d,
    format_square s = String c (String d "")
    /\ Z_of_ascii "a" <= Z_of_ascii c <= Z_of_ascii "h"
    /\ Z_of_ascii "1" <= Z_of_ascii d <= Z_of_ascii "8"
    /\ s = make_square (Z_of_ascii c - Z_of_ascii "a")
             (Z_of_ascii d - Z_of_ascii "1").
Proof.
  intros Hs. destruct (square_of_file_rank s Hs) as [Hf Hr].
  exists (ascii_of_Z (Z_of_ascii "a" + file_of s)),
         (ascii_of_Z (Z_of_ascii "1" + rank_of s)).
  change (Z_of_ascii "a") with 97 in *. change (Z_of_ascii "1") with 49 in *.
  change (Z_of_ascii "h") with 104. change (Z_of_ascii "8") with 56.
  rewrite !Z_of_ascii_of_Z by lia.
  split; [reflexivity|]. split; [lia|]. split; [lia|].
  replace (97 + file_of s - 97) with (file_of s) by lia.
  replace (49 + rank_of s - 49) with (rank_of s) by lia.
  rewrite make_square_value by exact Hf.
  destruct (square_decompose s) as [E _]. exact E.
Qed.

Lemma format_square_inj (s t : Square) :
  0 <= s < 64 -> 0 <= t < 64 -> format_square s = format_square t -> s = t.
Proof.
  intros Hs Ht E.
  destruct (format_square_chars s Hs) as (c & d & Es & _ & _ & ->).
  destruct (format_square_chars t Ht) as (c' & d' & Et & _ & _ & ->).
  rewrite Es, Et in E. now injection E as -> ->.
Qed.

(** X1.  The text of a square of the board is a file letter from a to h
    followed by a rank digit from 1 to 8, the square is read back from the
    two characters, and no other square of the board has the same text. *)
Theorem format_square_decode (s : Square) :
  0 <= s < 64 ->
  (exists c d,
      format_square s = String c (String d "")
      /\ Z_of_ascii "a" <= Z_of_ascii c <= Z_of_ascii "h"
      /\ Z_of_ascii "1" <= Z_of_ascii d <= Z_of_ascii "8"
      /\ s = make_square (Z_of_ascii c - Z_of_ascii "a")
               (Z_of_ascii d - Z_of_ascii "1"))
  /\ (forall t, 0 <= t < 64 -> format_square t = format_square s -> t = s).
Proof.
  intros Hs. split; [now apply format_square_chars|].
  intros t Ht E. now apply format_square_inj.
Qed.

(** The square e4. *)
Lemma format_square_decode_witness :
  exists c d,
    format_square 28 = String c (String d "")
    /\ Z_of_ascii "a" <= Z_of_ascii c <= Z_of_ascii "h"
    /\ Z_of_ascii "1" <= Z_of_ascii d <= Z_of_ascii "8"
    /\ 28 = make_square (Z_of_ascii c - Z_of_ascii "a")
               (Z_of_ascii d - Z_of_ascii "1").
Proof.
  assert (H : 0 <= 28 < 64) by lia.
  exact (proj1 (format_square_decode 28 H)).
Defined.

Lemma promotion_letter_inj (a b : PieceType) :
  char_at " pnbrqk" (PieceType_index a) = char_at " pnbrqk" (PieceType_index b) ->
  a = b.
Proof. destruct a, b; intros E; try reflexivity; discriminate E. Qed.

Lemma format_move_playable (ty : MoveType) (from to : Square) (pt : PieceType)
  (chess960 : bool) :
  format_move (make ty from to pt) chess960 =
  (format_square from ++
   format_square
     (if MoveType_eqb ty CASTLING && negb chess960
      then make_square (if to >? from then FILE_G else FILE_C) (rank_of from)
      else to)) ++
  (if MoveType_eqb ty PROMOTION
   then String (char_at " pnbrqk" (PieceType_index pt)) "" else "").
Proof.
  unfold format_move.
  change (Move_eqb (make ty from to pt) MOVE_NONE) with false.
  change (Move_eqb (make ty from to pt) MOVE_NULL) with false.
  cbv iota. cbn [type_of promotion_type from_sq to_sq].
  destruct (MoveType_eqb ty PROMOTION); [reflexivity|].
  now rewrite string_app_nil_r.
Qed.

(** X2.  Two moves between squares of the board that are written the same
    way, with the Chess960 flag or when none of them is a castling move,
    have the same origin and the same destination, are both promotions or
    both not, and promote to the same piece if they are promotions. *)
Theorem format_move_same_text (ty ty' : MoveType) (from to from' to' : Square)
  (pt pt' : PieceType) (chess960 : bool) :
  0 <= from < 64 -> 0 <= to < 64 -> 0 <= from' < 64 -> 0 <= to' < 64 ->
  chess960 = true \/ (ty <> CASTLING /\ ty' <> CASTLING) ->
  format_move (make ty from to pt) chess960
  = format_move (make ty' from' to' pt') chess960 ->
  from = from' /\ to = to'
  /\ (ty = PROMOTION <-> ty' = PROMOTION)
  /\ (ty = PROMOTION -> pt = pt').
Proof.
  intros Hf Ht Hf' Ht' Hmode E. rewrite !format_move_playable in E.
  assert (Hto : (if MoveType_eqb ty CASTLING && negb chess960
                 then make_square (if to >? from then FILE_G else FILE_C)
                        (rank_of from)
                 else to) = to).
  { destruct Hmode as [-> | [Hc _]]; [now rewrite andb_false_r|].
    destruct ty; try reflexivity. congruence. }
  assert (Hto' : (if MoveType_eqb ty' CASTLING && negb chess960
                  then make_square (if to' >? from' then FILE_G else FILE_C)
                         (rank_of from')
                  else to') = to').
  { destruct Hmode as [-> | [_ Hc]]; [now rewrite andb_false_r|].
    destruct ty'; try reflexivity. congruence. }
  rewrite Hto, Hto' in E. clear Hto Hto'.
  destruct (format_square_shape from) as (a & b & Ea).
  destruct (format_square_shape to) as (c & d & Ec).
  destruct (format_square_shape from') as (a' & b' & Ea').
  destruct (format_square_shape to') as (c' & d' & Ec').
  assert (Hsq : format_square from = format_square from'
                /\ format_square to = format_square to'
                /\ (if MoveType_eqb ty PROMOTION
                    then String (char_at " pnbrqk" (PieceType_index pt)) "" else "")
                   = (if MoveType_eqb ty' PROMOTION
                      then String (char_at " pnbrqk" (PieceType_index pt')) ""
                      else "")).
  { rewrite Ea, Ec, Ea', Ec' in *. cbn [append] in E.
    injection E as -> -> -> -> E. now repeat split. }
  destruct Hsq as (E1 & E2 & E3).
  apply format_square_inj in E1; [|assumption..].
  apply format_square_inj in E2; [|assumption..].
  split; [exact E1 | split; [exact E2|]].
  destruct ty, ty'; cbn [MoveType_eqb] in E3; try discriminate E3;
    (split; [split; congruence|]); try congruence.
  intros _. injection E3 as E3. now apply promotion_letter_inj.
Qed.

(** A pawn's double step and a move of another kind between the same
    squares are both written "e2e4". *)
Lemma format_move_same_text_witness :
  12 = 12 /\ 28 = 28
  /\ (NORMAL = PROMOTION <-> ENPASSANT = PROMOTION)
  /\ (NORMAL = PROMOTION -> NO_PIECE_TYPE = PAWN).
Proof.
  assert (H12 : 0 <= 12 < 64) by lia.
  assert (H28 : 0 <= 28 < 64) by lia.
  assert (Hmode : false = true \/ (NORMAL <> CASTLING /\ ENPASSANT <> CASTLING))
    by (right; split; discriminate).
  assert (E : format_move (make NORMAL 12 28 NO_PIECE_TYPE) false
              = format_move (make ENPASSANT 12 28 PAWN) false) by reflexivity.
  exact (format_move_same_text NORMAL ENPASSANT 12 28 12 28 NO_PIECE_TYPE PAWN
           false H12 H28 H12 H28 Hmode E).
Defined.

(** ** What [to_move] accepts *)

Lemma to_move_scan_sound (l : list Move) (str : string) (chess960 : bool) :
  to_move_scan l str chess960 = MOVE_NONE
  \/ (In (to_move_scan l str chess960) l
      /\ format_move (to_move_scan l str chess960) chess960 = str).
Proof.
  induction l as [|x l IH]; [now left|]. cbn [to_move_scan].
  destruct (Move_eqb x MOVE_NONE); [now left|].
  destruct (String.eqb_spec str (format_move x chess960)) as [E|_].
  - right. split; [now left | now symmetry].
  - destruct IH as [IH | [IH1 IH2]]; [now left|].
    right. split; [now right | exact IH2].
Qed.

Lemma to_move_scan_none (l : list Move) (str : string) (chess960 : bool) :
  ~ In MOVE_NONE l ->
  (to_move_scan l str chess960 = MOVE_NONE
   <-> forall m, In m l -> format_move m chess960 <> str).
Proof.
  induction l as [|x l IH]; intros Hnone; cbn [to_move_scan].
  - split; [intros _ m [] | reflexivity].
  - unfold Move_eqb. destruct (Move_eq_dec x MOVE_NONE) as [->|Hx].
    + exfalso. apply Hnone. now left.
    + assert (Hl : ~ In MOVE_NONE l) by (intros H; apply Hnone; now right).
      destruct (String.eqb_spec str (format_move x chess960)) as [E|E].
      * split; [congruence|]. intros Hall. exfalso.
        apply (Hall x); [now left | now symmetry].
      * rewrite (IH Hl). split.
        -- intros Hall m [<-|Hm]; [congruence | now apply Hall].
        -- intros Hall m Hm. apply Hall. now right.
Qed.

(** X3.  When the list of legal moves holds no [MOVE_NONE], [to_move]
    yields [MOVE_NONE] exactly when no legal move is written as the string
    it matched, and any other move it yields is a legal move written as that
    string: a text that names no legal move is turned down, never guessed. *)
Theorem to_move_accepts `{PositionAPI} (pos : Position) (str : string) :
  ~ In MOVE_NONE (MoveList_LEGAL pos) ->
  (fst (to_move pos str) = MOVE_NONE
   <-> forall m, In m (MoveList_LEGAL pos) ->
                 format_move m (is_chess960 pos) <> snd (to_move pos str))
  /\ (fst (to_move pos str) <> MOVE_NONE ->
      In (fst (to_move pos str)) (MoveList_LEGAL pos)
      /\ format_move (fst (to_move pos str)) (is_chess960 pos)
         = snd (to_move pos str)).
Proof.
  intros Hnone. unfold to_move. cbn [fst snd]. split.
  - now apply to_move_scan_none.
  - intros Hm.
    destruct (to_move_scan_sound (MoveList_LEGAL pos)
                (if Nat.eqb (String.length str) 5
                 then set_char str 4 (tolower (char_at str 4)) else str)
                (is_chess960 pos)) as [E|E]; [contradiction | exact E].
Qed.

(** "e2e4" in the start position. *)
Lemma to_move_accepts_witness :
  In (fst (@to_move demo_position_api (Setup StartFEN false) "e2e4"))
     (@MoveList_LEGAL demo_position_api (Setup StartFEN false))
  /\ format_move (fst (@to_move demo_position_api (Setup StartFEN false) "e2e4"))
       (@is_chess960 demo_position_api (Setup StartFEN false))
     = snd (@to_move demo_position_api (Setup StartFEN false) "e2e4").
Proof.
  assert (Hnone : ~ In MOVE_NONE
                      (@MoveList_LEGAL demo_position_api (Setup StartFEN false)))
    by (vm_compute; intuition discriminate).
  assert (Hfound : fst (@to_move demo_position_api (Setup StartFEN false) "e2e4")
                   <> MOVE_NONE) by (vm_compute; discriminate).
  exact (proj2 (@to_move_accepts demo_position_api (Setup StartFEN false)
                  "e2e4" Hnone) Hfound).
Defined.

Lemma tolower_idempotent (c : ascii) : tolower (tolower c) = tolower c.
Proof.
  destruct c as [[] [] [] [] [] [] [] []]; reflexivity.
Qed.

Lemma set_char_length (s : string) (n : nat) (c : ascii) :
  String.length (set_char s n c) = String.length s.
Proof.
  revert n. induction s as [|a s IH]; intros [|n]; simpl; congruence.
Qed.

Lemma string_ext (s t : string) :
  (forall i, String.get i s = String.get i t) -> s = t.
Proof.
  revert t. induction s as [|a s IH]; intros [|b t] E.
  - reflexivity.
  - specialize (E 0%nat). discriminate.
  - specialize (E 0%nat). discriminate.
  - pose proof (E 0%nat) as E0. injection E0 as ->. f_equal.
    apply IH. intros i. exact (E (S i)).
Qed.

Lemma lower_fifth_idempotent (str : string) :
  let low s := if Nat.eqb (String.length s) 5
               then set_char s 4 (tolower (char_at s 4)) else s in
  low (low str) = low str.
Proof.
  intros low. subst low. cbv beta.
  destruct (Nat.eqb (String.length str) 5) eqn:E; [|now rewrite E].
  rewrite set_char_length, E. apply Nat.eqb_eq in E.
  apply string_ext. intros i. rewrite !get_set_char, set_char_length, E.
  destruct (Nat.eqb i 4 && Nat.ltb 4 5)%bool; [|reflexivity].
  unfold char_at at 1. rewrite get_set_char, E. cbn.
  now rewrite tolower_idempotent.
Qed.

(** X4.  Reading the string that [to_move] hands back yields the same move
    and the same string again: the lower-casing of the promotion letter is
    done once and for all, so "e7e8Q" and "e7e8q" name the same move. *)
Theorem to_move_idempotent `{PositionAPI} (pos : Position) (str : string) :
  to_move pos (snd (to_move pos str)) = to_move pos str.
Proof.
  unfold to_move. cbn [snd].
  pose proof (lower_fifth_idempotent str) as E. cbv zeta beta in E.
  now rewrite E.
Qed.

Lemma format_move_length (m : Move) (chess960 : bool) :
  m <> MOVE_NONE ->
  String.length (format_move m chess960) = 4%nat
  \/ String.length (format_move m chess960) = 5%nat.
Proof.
  destruct m as [| | ty from to pt]; intros Hm; [congruence | now left |].
  rewrite format_move_playable.
  match goal with
  | |- context [format_square from ++ format_square ?t] =>
      destruct (format_square_shape from) as (a & b & ->);
      destruct (format_square_shape t) as (c & d & ->)
  end.
  destruct (MoveType_eqb ty PROMOTION); [now right | now left].
Qed.

Lemma to_move_scan_length (l : list Move) (str : string) (chess960 : bool) :
  String.length str <> 4%nat -> String.length str <> 5%nat ->
  to_move_scan l str chess960 = MOVE_NONE.
Proof.
  intros H4 H5. induction l as [|x l IH]; [reflexivity|]. cbn [to_move_scan].
  unfold Move_eqb. destruct (Move_eq_dec x MOVE_NONE) as [|Hx]; [reflexivity|].
  destruct (String.eqb_spec str (format_move x chess960)) as [E|_]; [|exact IH].
  exfalso. destruct (format_move_length x chess960 Hx) as [L|L];
    rewrite <- E in L; contradiction.
Qed.

(** X5.  A string that has neither four nor five characters names no move:
    [to_move] yields [MOVE_NONE] for it whatever the position, and leaves
    the string as it is. *)
Theorem to_move_wrong_length `{PositionAPI} (pos : Position) (str : string) :
  String.length str <> 4%nat -> String.length str <> 5%nat ->
  to_move pos str = (MOVE_NONE, str).
Proof.
  intros H4 H5. unfold to_move.
  destruct (Nat.eqb_spec (String.length str) 5) as [|_]; [contradiction|].
  now rewrite to_move_scan_length.
Qed.

(** "e2" is too short to be a move. *)
Lemma to_move_wrong_length_witness :
  @to_move demo_position_api (Setup StartFEN false) "e2" = (MOVE_NONE, "e2").
Proof.
  assert (H4 : String.length "e2" <> 4%nat) by (cbn; lia).
  assert (H5 : String.length "e2" <> 5%nat) by (cbn; lia).
  exact (@to_move_wrong_length demo_position_api (Setup StartFEN false) "e2"
           H4 H5).
Defined.

Lemma to_move_scan_first_char (l : list Move) (str : string) (chess960 : bool) :
  (forall m, In m l ->
             exists ty from to pt, m = make ty from to pt /\ 0 <= from < 64) ->
  (forall c r, str = String c r ->
               ~ Z_of_ascii "a" <= Z_of_ascii c <= Z_of_ascii "h") ->
  to_move_scan l str chess960 = MOVE_NONE.
Proof.
  intros Hl Hstr. induction l as [|x l IH]; [reflexivity|]. cbn [to_move_scan].
  destruct (Hl x (or_introl eq_refl)) as (ty & from & to & pt & -> & Hfrom).
  change (Move_eqb (make ty from to pt) MOVE_NONE) with false. cbv iota.
  destruct (String.eqb_spec str (format_move (make ty from to pt) chess960))
    as [E|_].
  - exfalso. rewrite format_move_playable in E.
    destruct (format_square_chars from Hfrom) as (c & d & Ec & Hc & _).
    rewrite Ec in E. cbn [append] in E. exact (Hstr _ _ E Hc).
  - apply IH. intros m Hm. apply Hl. now right.
Qed.

(** X6.  When the legal moves are moves between squares, with their origin
    on the board, a string that does not start with a file letter names none
    of them: "0000", the text of the null move, is turned down like any
    other, so a null move in a move list ends the list. *)
Theorem to_move_no_file_letter `{PositionAPI} (pos : Position) (str : string) :
  (forall m, In m (MoveList_LEGAL pos) ->
             exists ty from to pt, m = make ty from to pt /\ 0 <= from < 64) ->
  (forall c r, str = String c r ->
               ~ Z_of_ascii "a" <= Z_of_ascii c <= Z_of_ascii "h") ->
  fst (to_move pos str) = MOVE_NONE
  /\ fst (to_move pos (format_move MOVE_NULL (is_chess960 pos))) = MOVE_NONE.
Proof.
  intros Hl Hstr. unfold to_move. cbn [fst]. split.
  - apply to_move_scan_first_char; [exact Hl|].
    destruct (Nat.eqb (String.length str) 5); [|exact Hstr].
    intros c r E Hc. destruct str as [|c0 r0]; [discriminate|].
    cbn [set_char] in E.
    destruct r0 as [|c1 [|c2 [|c3 [|c4 r4]]]]; cbn [set_char] in E;
      injection E as <- _; exact (Hstr _ _ eq_refl Hc).
  - apply to_move_scan_first_char; [exact Hl|].
    intros c r E Hc. cbn in E. injection E as <- _. cbv in Hc.
    destruct Hc as [Hc _]. now apply Hc.
Qed.

(** The null move in the start position. *)
Lemma to_move_no_file_letter_witness :
  fst (@to_move demo_position_api (Setup StartFEN false) "0000") = MOVE_NONE.
Proof.
  assert (Hl : forall m, In m (demo_legal_moves (Setup StartFEN false)) ->
                         exists ty from to pt,
                           m = make ty from to pt /\ 0 <= from < 64).
  { intros m Hm. vm_compute in Hm.
    repeat (destruct Hm as [<- | Hm];
            [do 4 eexists; split; [reflexivity | lia]|]).
    contradiction. }
  assert (Hs : forall c r, "0000" = String c r ->
                           ~ Z_of_ascii "a" <= Z_of_ascii c <= Z_of_ascii "h").
  { intros c r [= <- _] Hc. cbv in Hc. destruct Hc as [Hc _]. now apply Hc. }
  exact (proj1 (@to_move_no_file_letter demo_position_api
                  (Setup StartFEN false) "0000" Hl Hs)).
Defined.

(** ** What the short algebraic notation tells apart *)

Lemma format_square_file_rank (s : Square) :
  format_square s = String (file_char s) (String (rank_char s) "").
Proof.
  unfold format_square, file_char, rank_char, FILE_A, RANK_1.
  f_equal; [f_equal; lia | f_equal; f_equal; lia].
Qed.

Lemma file_char_code (s : Square) :
  Z_of_ascii (file_char s) = 97 + file_of s /\ 0 <= file_of s < 8.
Proof.
  destruct (square_decompose s) as [_ Hf]. split; [|exact Hf].
  unfold file_char, FILE_A. change (Z_of_ascii "a") with 97.
  rewrite Z_of_ascii_of_Z by lia. lia.
Qed.

Lemma rank_char_code (s : Square) :
  0 <= s < 64 -> Z_of_ascii (rank_char s) = 49 + rank_of s /\ 0 <= rank_of s < 8.
Proof.
  intros Hs. destruct (square_of_file_rank s Hs) as [_ Hr]. split; [|exact Hr].
  unfold rank_char, RANK_1. change (Z_of_ascii "1") with 49.
  rewrite Z_of_ascii_of_Z by lia. lia.
Qed.

(** The text of a piece move before the check mark, with the disambiguator
    of the specification. *)
Lemma san_text_piece `{PositionAPI} (pos : Position) (m : Move) :
  0 <= from_sq m < 64 ->
  (pieces pos (side_to_move pos) (type_of_piece (piece_on pos (from_sq m)))
   < 2 ^ 64)%N ->
  N.testbit
    (N.land (attacks_from pos (piece_on pos (from_sq m)) (to_sq m))
       (pieces pos (side_to_move pos) (type_of_piece (piece_on pos (from_sq m)))))
    (Z.to_N (from_sq m)) = true ->
  type_of m <> CASTLING ->
  type_of_piece (piece_on pos (from_sq m)) <> PAWN ->
  san_text pos m =
    String (char_at " PNBRQK"
              (PieceType_index (type_of_piece (piece_on pos (from_sq m)))))
      (san_disambiguator pos m
       ++ (if capture pos m then "x" else "")
       ++ format_square (to_sq m)
       ++ (if MoveType_eqb (type_of m) PROMOTION
           then "=" ++ String (char_at " PNBRQK"
                                 (PieceType_index (promotion_type m))) ""
           else "")).
Proof.
  intros Hfrom H64 Hmover Hcastle Hpawn.
  unfold san_text.
  replace (MoveType_eqb (type_of m) CASTLING) with false
    by (destruct (type_of m); try reflexivity; congruence).
  replace (PieceType_eqb (type_of_piece (piece_on pos (from_sq m))) PAWN)
    with false
    by (destruct (type_of_piece (piece_on pos (from_sq m)));
        try reflexivity; congruence).
  cbn [negb PieceToChar].
  rewrite (san_others_meet pos m Hfrom H64 Hmover (file_bb (from_sq m))
             (fun s => file_of s =? file_of (from_sq m)))
    by (intros s Hs; apply (file_rank_bb_bits (from_sq m) s Hfrom Hs)).
  rewrite (san_others_meet pos m Hfrom H64 Hmover (rank_bb (from_sq m))
             (fun s => rank_of s =? rank_of (from_sq m)))
    by (intros s Hs; apply (file_rank_bb_bits (from_sq m) s Hfrom Hs)).
  assert (Hd :
    (if N.eqb (san_others pos m) 0
     then String (char_at " PNBRQK"
                    (PieceType_index (type_of_piece (piece_on pos (from_sq m))))) ""
     else if forallb (fun s => negb (file_of s =? file_of (from_sq m)))
               (san_candidates pos m)
     then String (char_at " PNBRQK"
                    (PieceType_index (type_of_piece (piece_on pos (from_sq m))))) ""
          ++ String (file_char (from_sq m)) ""
     else if forallb (fun s => negb (rank_of s =? rank_of (from_sq m)))
               (san_candidates pos m)
     then String (char_at " PNBRQK"
                    (PieceType_index (type_of_piece (piece_on pos (from_sq m))))) ""
          ++ String (rank_char (from_sq m)) ""
     else String (char_at " PNBRQK"
                    (PieceType_index (type_of_piece (piece_on pos (from_sq m))))) ""
          ++ format_square (from_sq m))
    = String (char_at " PNBRQK"
                (PieceType_index (type_of_piece (piece_on pos (from_sq m)))))
        (san_disambiguator pos m)).
  { unfold san_disambiguator.
    destruct (N.eqb (san_others pos m) 0) eqn:E.
    - apply (san_others_empty pos m Hfrom H64 Hmover) in E. now rewrite E.
    - destruct (san_candidates pos m) as [|s l] eqn:Ec.
      + apply (san_others_empty pos m Hfrom H64 Hmover) in Ec. congruence.
      + destruct (forallb _ (s :: l)); [reflexivity|].
        destruct (forallb _ (s :: l)); reflexivity. }
  rewrite Hd. clear Hd.
  generalize (san_disambiguator pos m) (format_square (to_sq m))
    (char_at " PNBRQK" (PieceType_index (promotion_type m))).
  intros d sq c.
  destruct (capture pos m), (MoveType_eqb (type_of m) PROMOTION);
    cbn [append]; rewrite ?string_app_assoc, ?string_app_nil_r;
    cbn [append]; reflexivity.
Qed.

(** [move_to_san] on a move that is no sentinel: the text, then the mark. *)
Lemma move_to_san_text `{PositionAPI} (pos : Position) (m : Move) :
  m <> MOVE_NONE -> m <> MOVE_NULL ->
  fst (move_to_san pos m) =
  san_text pos m ++
  (if gives_check pos m
   then if Nat.eqb (List.length (MoveList_LEGAL (do_move pos m))) 0
        then "#" else "+"
   else "").
Proof.
  intros Hnone Hnull. unfold move_to_san, Move_eqb.
  destruct (Move_eq_dec m MOVE_NONE) as [|_]; [contradiction|].
  destruct (Move_eq_dec m MOVE_NULL) as [|_]; [contradiction|].
  destruct (gives_check pos m); cbn [fst]; [reflexivity|].
  now rewrite string_app_nil_r.
Qed.

Lemma san_disambiguator_cases `{PositionAPI} (pos : Position) (m : Move)
  (s : Square) :
  In s (san_candidates pos m) ->
  (san_disambiguator pos m = String (file_char (from_sq m)) ""
   /\ file_of s <> file_of (from_sq m))
  \/ (san_disambiguator pos m = String (rank_char (from_sq m)) ""
      /\ rank_of s <> rank_of (from_sq m))
  \/ san_disambiguator pos m = format_square (from_sq m).
Proof.
  intros Hs. unfold san_disambiguator.
  destruct (san_candidates pos m) as [|c l] eqn:Ec; [contradiction|].
  destruct (forallb (fun s0 => negb (file_of s0 =? file_of (from_sq m))) (c :: l))
    eqn:Ef.
  - left. split; [reflexivity|].
    rewrite forallb_forall in Ef. specialize (Ef s Hs).
    apply negb_true_iff, Z.eqb_neq in Ef. exact Ef.
  - destruct (forallb (fun s0 => negb (rank_of s0 =? rank_of (from_sq m))) (c :: l))
      eqn:Er.
    + right. left. split; [reflexivity|].
      rewrite forallb_forall in Er. specialize (Er s Hs).
      apply negb_true_iff, Z.eqb_neq in Er. exact Er.
    + right. right. reflexivity.
Qed.

(** The notation of a piece move: the piece letter, the disambiguator, and
    a rest that starts with an x or with a file letter, never with a digit. *)
Lemma move_to_san_piece_form `{PositionAPI} (pos : Position) (m : Move) :
  m <> MOVE_NONE -> m <> MOVE_NULL ->
  0 <= from_sq m < 64 ->
  (pieces pos (side_to_move pos) (type_of_piece (piece_on pos (from_sq m)))
   < 2 ^ 64)%N ->
  N.testbit
    (N.land (attacks_from pos (piece_on pos (from_sq m)) (to_sq m))
       (pieces pos (side_to_move pos) (type_of_piece (piece_on pos (from_sq m)))))
    (Z.to_N (from_sq m)) = true ->
  type_of m <> CASTLING ->
  type_of_piece (piece_on pos (from_sq m)) <> PAWN ->
  exists h t,
    fst (move_to_san pos m) =
      String (char_at " PNBRQK"
                (PieceType_index (type_of_piece (piece_on pos (from_sq m)))))
        (san_disambiguator pos m ++ String h t)
    /\ 97 <= Z_of_ascii h.
Proof.
  intros Hnone Hnull Hfrom H64 Hmover Hcastle Hpawn.
  rewrite move_to_san_text by assumption.
  rewrite san_text_piece by assumption.
  rewrite format_square_file_rank.
  destruct (file_char_code (to_sq m)) as [Hc Hf].
  generalize (san_disambiguator pos m). intros d.
  destruct (capture pos m); cbn [append].
  - eexists _, _. split.
    + rewrite string_app_assoc. cbn [append]. reflexivity.
    + cbv. discriminate.
  - eexists _, _. split.
    + rewrite string_app_assoc. cbn [append]. reflexivity.
    + lia.
Qed.

(** X7.  Two pieces of the same type that can both legally go to one square
    never get the same notation: the two moves are written differently,
    whatever the capture and check marks are. *)
Theorem move_to_san_unambiguous `{PositionAPI} (pos : Position)
  (from1 from2 to : Square) :
  let us := side_to_move pos in
  let pc := piece_on pos from1 in
  let pt := type_of_piece pc in
  0 <= from1 < 64 -> 0 <= from2 < 64 -> from1 <> from2 ->
  piece_on pos from2 = pc ->
  pt <> PAWN ->
  (pieces pos us pt < 2 ^ 64)%N ->
  N.testbit (N.land (attacks_from pos pc to) (pieces pos us pt)) (Z.to_N from1)
  = true ->
  N.testbit (N.land (attacks_from pos pc to) (pieces pos us pt)) (Z.to_N from2)
  = true ->
  legal pos (make_move from1 to) (pinned_pieces pos us) = true ->
  legal pos (make_move from2 to) (pinned_pieces pos us) = true ->
  fst (move_to_san pos (make_move from1 to))
  <> fst (move_to_san pos (make_move from2 to)).
Proof.
  intros us pc pt H1 H2 Hne Hpc Hpawn H64 Ha1 Ha2 Hl1 Hl2.
  assert (Hc12 : In from2 (san_candidates pos (make_move from1 to))).
  { apply san_candidates_spec. split; [exact H2|].
    cbn [from_sq to_sq make_move]. fold pc pt us.
    rewrite N.land_spec in Ha2. apply andb_true_iff in Ha2 as [-> ->].
    rewrite Hl2. cbn [andb]. rewrite andb_true_r.
    apply negb_true_iff, Z.eqb_neq. congruence. }
  assert (Hc21 : In from1 (san_candidates pos (make_move from2 to))).
  { apply san_candidates_spec. split; [exact H1|].
    cbn [from_sq to_sq make_move]. rewrite Hpc. fold pc pt us.
    rewrite N.land_spec in Ha1. apply andb_true_iff in Ha1 as [-> ->].
    rewrite Hl1. cbn [andb]. rewrite andb_true_r.
    apply negb_true_iff, Z.eqb_neq. congruence. }
  destruct (move_to_san_piece_form pos (make_move from1 to))
    as (h1 & t1 & -> & Hh1);
    try (cbn [from_sq to_sq type_of make_move]; (assumption || discriminate)).
  destruct (move_to_san_piece_form pos (make_move from2 to))
    as (h2 & t2 & -> & Hh2);
    try (cbn [from_sq to_sq type_of make_move]; rewrite ?Hpc;
         (assumption || discriminate)).
  cbn [from_sq make_move]. rewrite Hpc. fold pc pt.
  destruct (file_char_code from1) as [Hf1 Hf1'].
  destruct (file_char_code from2) as [Hf2 Hf2'].
  destruct (rank_char_code from1 H1) as [Hr1 Hr1'].
  destruct (rank_char_code from2 H2) as [Hr2 Hr2'].
  pose proof (san_disambiguator_cases pos _ _ Hc12) as D1.
  pose proof (san_disambiguator_cases pos _ _ Hc21) as D2.
  cbn [from_sq make_move] in D1, D2.
  rewrite !format_square_file_rank in D1, D2.
  intros E.
  destruct D1 as [[D1 N1] | [[D1 N1] | D1]];
    destruct D2 as [[D2 N2] | [[D2 N2] | D2]];
    rewrite D1, D2 in E; cbn [append] in E; injection E; intros;
    repeat match goal with
           | Q : @eq ascii _ _ |- _ => apply (f_equal Z_of_ascii) in Q
           end;
    try lia.
  destruct (square_decompose from1) as [S1 _].
  destruct (square_decompose from2) as [S2 _].
  apply Hne. lia.
Qed.

(** The rooks on a1 and h1 that can both go to d1. *)
Lemma move_to_san_unambiguous_witness :
  fst (@move_to_san demo_position_api (Setup RooksFEN false) (make_move 0 3))
  <> fst (@move_to_san demo_position_api (Setup RooksFEN false) (make_move 7 3)).
Proof.
  pose proof (@move_to_san_unambiguous demo_position_api
                (Setup RooksFEN false) 0 7 3) as T.
  cbv zeta in T.
  assert (H0 : 0 <= 0 < 64) by lia.
  assert (H7 : 0 <= 7 < 64) by lia.
  assert (Hne : 0 <> 7) by lia.
  specialize (T H0 H7 Hne).
  match type of T with
  | ?A -> _ => assert (Hpc : A) by (vm_compute; reflexivity); specialize (T Hpc)
  end.
  match type of T with
  | ?A -> _ => assert (Hpawn : A) by (vm_compute; discriminate);
               specialize (T Hpawn)
  end.
  match type of T with
  | ?A -> _ => assert (H64 : A) by (vm_compute; reflexivity); specialize (T H64)
  end.
  match type of T with
  | ?A -> _ => assert (Ha1 : A) by (vm_compute; reflexivity); specialize (T Ha1)
  end.
  match type of T with
  | ?A -> _ => assert (Ha2 : A) by (vm_compute; reflexivity); specialize (T Ha2)
  end.
  match type of T with
  | ?A -> _ => assert (Hl1 : A) by (vm_compute; reflexivity); specialize (T Hl1)
  end.
  match type of T with
  | ?A -> _ => assert (Hl2 : A) by (vm_compute; reflexivity); specialize (T Hl2)
  end.
  exact T.
Defined.

Lemma last_char_eq (a b : string) (c d : ascii) :
  a ++ String c "" = b ++ String d "" -> c = d.
Proof.
  intros E. apply app_suffix_inj in E; [|reflexivity].
  destruct E as [_ E]. now injection E.
Qed.

(** The text before the check mark ends with a rank digit, a piece letter
    or the O of castling. *)
Lemma san_text_last `{PositionAPI} (pos : Position) (m : Move) :
  0 <= to_sq m < 64 ->
  exists body d,
    san_text pos m = body ++ String d ""
    /\ d <> "+"%char /\ d <> "#"%char.
Proof.
  intros Hto. unfold san_text.
  destruct (MoveType_eqb (type_of m) CASTLING).
  - destruct (to_sq m >? from_sq m).
    + exists "O-", "O"%char. repeat split; discriminate.
    + exists "O-O-", "O"%char. repeat split; discriminate.
  - cbv zeta.
    match goal with
    | |- context [?p ++ format_square (to_sq m)] => generalize p
    end.
    intros p. destruct (MoveType_eqb (type_of m) PROMOTION).
    + exists ((p ++ format_square (to_sq m)) ++ "="),
             (char_at (PieceToChar WHITE) (PieceType_index (promotion_type m))).
      split; [now rewrite !string_app_assoc|].
      destruct (promotion_type m); split; discriminate.
    + rewrite format_square_file_rank.
      exists (p ++ String (file_char (to_sq m)) ""), (rank_char (to_sq m)).
      split; [now rewrite string_app_assoc|].
      destruct (rank_char_code (to_sq m) Hto) as [Hr Hr'].
      split; intros E; rewrite E in Hr;
        [change (Z_of_ascii "+") with 43 in Hr
        | change (Z_of_ascii "#") with 35 in Hr]; lia.
Qed.

(** X8.  The check mark can be read off the notation of a move to a square
    of the board: the text ends with + exactly when the move gives check and
    leaves the opponent a legal move, and with # exactly when it gives check
    and leaves none. *)
Theorem move_to_san_check_mark `{PositionAPI} (pos : Position) (m : Move) :
  m <> MOVE_NONE -> m <> MOVE_NULL ->
  0 <= to_sq m < 64 ->
  (ends_with "+" (fst (move_to_san pos m))
   <-> gives_check pos m = true /\ MoveList_LEGAL (do_move pos m) <> [])
  /\ (ends_with "#" (fst (move_to_san pos m))
      <-> gives_check pos m = true /\ MoveList_LEGAL (do_move pos m) = []).
Proof.
  intros Hnone Hnull Hto. rewrite move_to_san_text by assumption.
  destruct (san_text_last pos m Hto) as (body & d & -> & Hplus & Hhash).
  unfold ends_with.
  destruct (gives_check pos m);
    [destruct (MoveList_LEGAL (do_move pos m)) as [|x l]|];
    cbn [List.length Nat.eqb]; rewrite ?string_app_nil_r.
  - split; split.
    + intros [p E]. apply last_char_eq in E. discriminate E.
    + intros [_ E]. congruence.
    + intros _. now split.
    + intros _. now eexists.
  - split; split.
    + intros _. split; [reflexivity | discriminate].
    + intros _. now eexists.
    + intros [p E]. apply last_char_eq in E. discriminate E.
    + intros [_ E]. discriminate E.
  - split; split.
    + intros [p E]. apply last_char_eq in E. congruence.
    + intros [E _]. discriminate E.
    + intros [p E]. apply last_char_eq in E. congruence.
    + intros [E _]. discriminate E.
Qed.

(** Rook a1 to d1 with the king on d8. *)
Lemma move_to_san_check_mark_witness :
  ends_with "+"
    (fst (@move_to_san demo_position_api (Setup RooksFEN false) demo_Ra1d1))
  <-> @gives_check demo_position_api (Setup RooksFEN false) demo_Ra1d1 = true
      /\ @MoveList_LEGAL demo_position_api
           (@do_move demo_position_api (Setup RooksFEN false) demo_Ra1d1) <> [].
Proof.
  assert (Hnone : demo_Ra1d1 <> MOVE_NONE) by discriminate.
  assert (Hnull : demo_Ra1d1 <> MOVE_NULL) by discriminate.
  assert (Hto : 0 <= to_sq demo_Ra1d1 < 64) by (cbn; lia).
  exact (proj1 (@move_to_san_check_mark demo_position_api
                  (Setup RooksFEN false) demo_Ra1d1 Hnone Hnull Hto)).
Defined.

(** X9.  The two notations agree on the side of a castling move: it is
    written O-O (before the check mark) exactly when the coordinate notation
    of normal chess puts the king on file g, and O-O-O exactly when it puts
    it on file c. *)
Theorem castling_notations_agree `{PositionAPI} (pos : Position)
  (from to : Square) (pt : PieceType) :
  let m := make CASTLING from to pt in
  ((exists mark, fst (move_to_san pos m) = "O-O" ++ mark
                 /\ (mark = "" \/ mark = "+" \/ mark = "#"))
   <-> String.get 2 (format_move m false) = Some "g"%char)
  /\ ((exists mark, fst (move_to_san pos m) = "O-O-O" ++ mark
                    /\ (mark = "" \/ mark = "+" \/ mark = "#"))
      <-> String.get 2 (format_move m false) = Some "c"%char).
Proof.
  intros m. subst m.
  rewrite move_to_san_text by discriminate.
  rewrite format_move_playable. unfold san_text.
  cbn [type_of from_sq to_sq MoveType_eqb andb negb].
  destruct (format_square_shape from) as (a & b & ->).
  rewrite format_square_file_rank. cbn [append String.get].
  unfold file_char. rewrite file_of_make_square
    by (destruct (to >? from); unfold FILE_G, FILE_C; lia).
  set (mark := if gives_check pos (make CASTLING from to pt)
               then if Nat.eqb (List.length
                         (MoveList_LEGAL (do_move pos (make CASTLING from to pt)))) 0
                    then "#" else "+"
               else "").
  assert (Hmark : mark = "" \/ mark = "+" \/ mark = "#").
  { subst mark. destruct (gives_check _ _); [|now left].
    destruct (Nat.eqb _ 0); [now right; right | now right; left]. }
  clearbody mark.
  destruct (to >? from); cbn [append]; split; split.
  - reflexivity.
  - intros _. exists mark. now split.
  - intros (k & E & [-> | [-> | ->]]);
      destruct Hmark as [-> | [-> | ->]]; discriminate E.
  - intros E. discriminate E.
  - intros (k & E & [-> | [-> | ->]]);
      destruct Hmark as [-> | [-> | ->]]; discriminate E.
  - intros E. discriminate E.
  - reflexivity.
  - intros _. exists mark. now split.
Qed.

(** The text of a pawn move before the check mark. *)
Lemma san_text_pawn `{PositionAPI} (pos : Position) (m : Move) :
  type_of m <> CASTLING ->
  type_of_piece (piece_on pos (from_sq m)) = PAWN ->
  san_text pos m =
  (if capture pos m then String (file_char (from_sq m)) "x" else "")
  ++ format_square (to_sq m)
  ++ (if MoveType_eqb (type_of m) PROMOTION
      then String "=" (String (char_at " PNBRQK"
                                 (PieceType_index (promotion_type m))) "")
      else "").
Proof.
  intros Hcastle Hpawn. unfold san_text. rewrite Hpawn.
  replace (MoveType_eqb (type_of m) CASTLING) with false
    by (destruct (type_of m); try reflexivity; congruence).
  cbn [PieceType_eqb PieceType_index Nat.eqb negb PieceToChar].
  generalize (format_square (to_sq m)). intros sq.
  destruct (capture pos m), (MoveType_eqb (type_of m) PROMOTION);
    cbn [append]; rewrite ?string_app_assoc, ?string_app_nil_r; reflexivity.
Qed.

Lemma piece_letter_inj (a b : PieceType) :
  char_at " PNBRQK" (PieceType_index a) = char_at " PNBRQK" (PieceType_index b) ->
  a = b.
Proof. destruct a, b; intros E; try reflexivity; discriminate E. Qed.

(** A text made of an optional origin file and x, a square, an optional
    promotion and an optional check mark is read in one way only. *)
Lemma pawn_text_inj (c1 c2 p1 p2 : bool) (f1 f2 a1 a2 b1 b2 P1 P2 : ascii)
  (k1 k2 : string) :
  49 <= Z_of_ascii b1 <= 56 -> 49 <= Z_of_ascii b2 <= 56 ->
  97 <= Z_of_ascii a1 <= 104 -> 97 <= Z_of_ascii a2 <= 104 ->
  k1 = "" \/ k1 = "+" \/ k1 = "#" ->
  k2 = "" \/ k2 = "+" \/ k2 = "#" ->
  (if c1 then String f1 "x" else "") ++ String a1 (String b1 "")
    ++ (if p1 then String "=" (String P1 "") else "") ++ k1
  = (if c2 then String f2 "x" else "") ++ String a2 (String b2 "")
    ++ (if p2 then String "=" (String P2 "") else "") ++ k2 ->
  c1 = c2 /\ (c1 = true -> f1 = f2) /\ a1 = a2 /\ b1 = b2
  /\ p1 = p2 /\ (p1 = true -> P1 = P2) /\ k1 = k2.
Proof.
  intros Hb1 Hb2 Ha1 Ha2 Hk1 Hk2 E.
  destruct c1, c2; cbn [append] in E.
  - injection E as -> -> -> E.
    destruct p1, p2, Hk1 as [-> | [-> | ->]], Hk2 as [-> | [-> | ->]];
      cbn [append] in E; try discriminate E;
      try (injection E as E); repeat split; intros; congruence.
  - exfalso. injection E as _ E _.
    apply (f_equal Z_of_ascii) in E. change (Z_of_ascii "x") with 120 in E. lia.
  - exfalso. injection E as _ E _.
    apply (f_equal Z_of_ascii) in E. change (Z_of_ascii "x") with 120 in E. lia.
  - injection E as -> -> E.
    destruct p1, p2, Hk1 as [-> | [-> | ->]], Hk2 as [-> | [-> | ->]];
      cbn [append] in E; try discriminate E;
      try (injection E as E); repeat split; intros; congruence.
Qed.

(** The check mark: nothing, + or #, and nothing exactly without check. *)
Lemma check_mark_cases `{PositionAPI} (pos : Position) (m : Move) :
  let k := if gives_check pos m
           then if Nat.eqb (List.length (MoveList_LEGAL (do_move pos m))) 0
                then "#" else "+"
           else "" in
  (k = "" \/ k = "+" \/ k = "#") /\ (k = "" <-> gives_check pos m = false).
Proof.
  cbv zeta. destruct (gives_check pos m).
  - destruct (Nat.eqb _ 0).
    + split; [right; right; reflexivity | split; discriminate].
    + split; [right; left; reflexivity | split; discriminate].
  - split; [left; reflexivity | split; reflexivity].
Qed.

(** X10.  The notation of a pawn move to a square of the board tells the
    move: two pawn moves that are written the same way go to the same
    square, both capture or both do not, come from the same file if they
    capture, promote to the same piece if they promote, and both give check
    or both do not. *)
Theorem pawn_san_same_text `{PositionAPI} (pos : Position) (m1 m2 : Move) :
  m1 <> MOVE_NONE -> m1 <> MOVE_NULL -> m2 <> MOVE_NONE -> m2 <> MOVE_NULL ->
  type_of m1 <> CASTLING -> type_of m2 <> CASTLING ->
  type_of_piece (piece_on pos (from_sq m1)) = PAWN ->
  type_of_piece (piece_on pos (from_sq m2)) = PAWN ->
  0 <= to_sq m1 < 64 -> 0 <= to_sq m2 < 64 ->
  fst (move_to_san pos m1) = fst (move_to_san pos m2) ->
  to_sq m1 = to_sq m2
  /\ capture pos m1 = capture pos m2
  /\ (capture pos m1 = true -> file_of (from_sq m1) = file_of (from_sq m2))
  /\ (type_of m1 = PROMOTION <-> type_of m2 = PROMOTION)
  /\ (type_of m1 = PROMOTION -> promotion_type m1 = promotion_type m2)
  /\ gives_check pos m1 = gives_check pos m2.
Proof.
  intros Hn1 Hl1 Hn2 Hl2 Hc1 Hc2 Hp1 Hp2 Ht1 Ht2 E.
  rewrite !move_to_san_text in E by assumption.
  rewrite !san_text_pawn in E by assumption.
  rewrite !format_square_file_rank in E.
  destruct (file_char_code (to_sq m1)) as [Ha1 Ha1'].
  destruct (file_char_code (to_sq m2)) as [Ha2 Ha2'].
  destruct (rank_char_code (to_sq m1) Ht1) as [Hb1 Hb1'].
  destruct (rank_char_code (to_sq m2) Ht2) as [Hb2 Hb2'].
  destruct (file_char_code (from_sq m1)) as [Hf1 Hf1'].
  destruct (file_char_code (from_sq m2)) as [Hf2 Hf2'].
  destruct (check_mark_cases pos m1) as [Hk1 Hg1].
  destruct (check_mark_cases pos m2) as [Hk2 Hg2].
  cbv zeta in Hk1, Hk2, Hg1, Hg2.
  revert E Hk1 Hk2 Hg1 Hg2.
  generalize (if gives_check pos m1
              then if Nat.eqb (List.length (MoveList_LEGAL (do_move pos m1))) 0
                   then "#" else "+"
              else "").
  generalize (if gives_check pos m2
              then if Nat.eqb (List.length (MoveList_LEGAL (do_move pos m2))) 0
                   then "#" else "+"
              else "").
  intros k2 k1 E Hk1 Hk2 Hg1 Hg2.
  rewrite !string_app_assoc in E.
  pose proof (pawn_text_inj (capture pos m1) (capture pos m2)
                (MoveType_eqb (type_of m1) PROMOTION)
                (MoveType_eqb (type_of m2) PROMOTION)
                (file_char (from_sq m1)) (file_char (from_sq m2))
                (file_char (to_sq m1)) (file_char (to_sq m2))
                (rank_char (to_sq m1)) (rank_char (to_sq m2))
                (char_at " PNBRQK" (PieceType_index (promotion_type m1)))
                (char_at " PNBRQK" (PieceType_index (promotion_type m2)))
                k1 k2 ltac:(lia) ltac:(lia) ltac:(lia) ltac:(lia) Hk1 Hk2 E)
    as (Ec & Ef & Ea & Eb & Ep & EP & Ek).
  split.
  { destruct (square_decompose (to_sq m1)) as [S1 _].
    destruct (square_decompose (to_sq m2)) as [S2 _].
    rewrite Ea in Ha1. rewrite Eb in Hb1. lia. }
  split; [exact Ec|]. split.
  { intros Hc. specialize (Ef Hc). rewrite Ef in Hf1. lia. }
  split.
  { destruct (type_of m1), (type_of m2); cbn [MoveType_eqb] in Ep;
      split; congruence. }
  split.
  { intros Hpromo. rewrite Hpromo in EP. apply piece_letter_inj.
    now apply EP. }
  subst k2. destruct (gives_check pos m1), (gives_check pos m2);
    try reflexivity.
  - apply Hg1, Hg2. reflexivity.
  - symmetry. apply Hg2, Hg1. reflexivity.
Qed.

(** The pawn on e7 that takes on d8 and becomes a queen: "exd8=Q+". *)
Lemma pawn_san_same_text_witness :
  fst (@move_to_san demo_position_api
         (Setup "3r3k/4P3/8/8/8/8/8/4K3 w - - 0 1" false)
         (make PROMOTION 52 59 QUEEN)) = "exd8=Q+"
  /\ (to_sq (make PROMOTION 52 59 QUEEN) = to_sq (make PROMOTION 52 59 QUEEN)
      /\ @capture demo_position_api
           (Setup "3r3k/4P3/8/8/8/8/8/4K3 w - - 0 1" false)
           (make PROMOTION 52 59 QUEEN)
         = @capture demo_position_api
             (Setup "3r3k/4P3/8/8/8/8/8/4K3 w - - 0 1" false)
             (make PROMOTION 52 59 QUEEN)).
Proof.
  assert (Hn : make PROMOTION 52 59 QUEEN <> MOVE_NONE) by discriminate.
  assert (Hl : make PROMOTION 52 59 QUEEN <> MOVE_NULL) by discriminate.
  assert (Hc : type_of (make PROMOTION 52 59 QUEEN) <> CASTLING)
    by discriminate.
  assert (Hp : type_of_piece
                 (@piece_on demo_position_api
                    (Setup "3r3k/4P3/8/8/8/8/8/4K3 w - - 0 1" false)
                    (from_sq (make PROMOTION 52 59 QUEEN))) = PAWN)
    by (vm_compute; reflexivity).
  assert (Ht : 0 <= to_sq (make PROMOTION 52 59 QUEEN) < 64) by (cbn; lia).
  pose proof (@pawn_san_same_text demo_position_api
                (Setup "3r3k/4P3/8/8/8/8/8/4K3 w - - 0 1" false)
                (make PROMOTION 52 59 QUEEN) (make PROMOTION 52 59 QUEEN)
                Hn Hl Hn Hl Hc Hc Hp Hp Ht Ht eq_refl) as (T1 & T2 & _).
  split; [vm_compute; reflexivity | split; [exact T1 | exact T2]].
Defined.

(** ** Options that exist *)

Lemma setoption_parse_value inp :
  snd (fst (setoption_parse inp))
  = join (drop_after "value" (skipn 1 (tokens inp))).
Proof.
  unfold setoption_parse, join. rewrite (tokens_step inp).
  destruct (extract_string inp) as [otoken inp1] eqn:E.
  destruct (while_token_ne_fold "value"
              (fun name token => name ++ separator name ++ token) inp1 "")
    as [_ Hrest].
  destruct (while_token_ne "value" _ inp1 "") as [name inp2].
  destruct (while_token_fold
              (fun value token => value ++ separator value ++ token) inp2 "")
    as [Hvalue _].
  destruct (while_token _ inp2 "") as [value inp3]. cbn [fst snd] in *.
  rewrite Hvalue, Hrest.
  destruct otoken as [token|]; cbn [skipn]; [reflexivity|].
  apply extract_string_fail_after in E.
  now rewrite (tokens_of_failed _ E).
Qed.

(** X11.  A [setoption] line whose option name is in the option table
    assigns to that option the tokens after "value", joined with single
    spaces (the empty string if there is no "value"), and does nothing
    else: nothing is written and the rest of the state is as before.  The
    token after "setoption" is skipped whatever it is. *)
Theorem setoption_known `{Collaborators} (s : State) (cmd : string)
  (inp : istringstream) :
  extract_string (istringstream_of cmd) = (Some "setoption", inp) ->
  let name := join (take_until "value" (skipn 1 (tokens inp))) in
  let value := join (drop_after "value" (skipn 1 (tokens inp))) in
  Options_count (Options s) name = true ->
  command s cmd = set_Options (Options_assign (Options s) name value) s.
Proof.
  intros E name value Hcount. unfold command. rewrite E.
  cbn [token_of String.eqb Ascii.eqb Bool.eqb orb]. cbv iota.
  unfold setoption. pose proof (setoption_parse_name inp) as Hname.
  pose proof (setoption_parse_value inp) as Hvalue.
  destruct (setoption_parse inp) as [[name' value'] inp3].
  cbn [fst snd] in Hname, Hvalue. fold name in Hname. fold value in Hvalue.
  subst name' value'. rewrite Hcount. reflexivity.
Qed.

(** "setoption name Hash value 128" with the options of the example. *)
Lemma setoption_known_witness :
  Options (command demo_init "setoption name Hash value 128")
  = [("Hash", "128"); ("Threads", "1"); ("UCI_Chess960", "false")].
Proof.
  assert (E : extract_string (istringstream_of "setoption name Hash value 128")
              = (Some "setoption", mk_stream " name Hash value 128" false))
    by reflexivity.
  pose proof (setoption_known demo_init _ _ E) as T. cbv zeta in T.
  match type of T with
  | ?A -> _ => assert (Hcount : A) by (vm_compute; reflexivity);
               specialize (T Hcount)
  end.
  rewrite T. vm_compute. reflexivity.
Defined.

(** ** The stack of states of [position] *)

Lemma last_cons {A : Type} (l : list A) :
  forall x d, last (x :: l) d = last l x.
Proof.
  induction l as [|p l IH]; intros x d; [reflexivity|].
  change (last (x :: p :: l) d) with (last (p :: l) d).
  now rewrite !IH.
Qed.

Lemma setup_moves_path `{PositionAPI} (toks : list string) :
  forall (pos : Position) (states : list StateInfo),
    fst (setup_moves pos states toks)
    = (last (setup_path pos toks) pos,
       (rev (List.map st (setup_path pos toks)) ++ states)%list).
Proof.
  induction toks as [|token rest IH]; intros pos states; [reflexivity|].
  cbn [setup_moves setup_path].
  destruct (Move_eqb (fst (to_move pos token)) MOVE_NONE); [reflexivity|].
  rewrite IH, last_cons. cbn [List.map rev].
  now rewrite <- app_assoc.
Qed.

(** What [position] does to the state. *)
Lemma position_state `{Collaborators} (s : State) (inp : istringstream) :
  fst (position s inp) =
  let setup fen moves :=
    let start := Position_set fen
                   (negb (Options_int (Options s) "UCI_Chess960" =? 0)) in
    set_pos (last (setup_path start moves) start)
      (Some (rev (List.map st (setup_path start moves)))) s in
  match tokens inp with
  | arg :: rest =>
      if String.eqb arg "startpos" then setup StartFEN (skipn 1 rest)
      else if String.eqb arg "fen"
      then setup (fold_left (fun fen token => fen ++ token ++ " ")
                    (take_until "moves" rest) "")
             (drop_after "moves" rest)
      else s
  | [] => s
  end.
Proof.
  cbv zeta. unfold position. rewrite (tokens_step inp).
  destruct (extract_string inp) as [[arg|] inp1] eqn:E; cbn [token_of fst snd];
    [|reflexivity].
  destruct (String.eqb arg "startpos").
  - rewrite (tokens_step inp1).
    destruct (extract_string inp1) as [o inp2] eqn:E2.
    assert (Ht : tokens inp2 = skipn 1 (match o with
                                        | Some token => token :: tokens inp2
                                        | None => []
                                        end)).
    { destruct o; [reflexivity|]. apply extract_string_fail_after in E2.
      now apply tokens_of_failed. }
    rewrite <- Ht.
    pose proof (position_moves_setup_moves inp2
                  (Position_set StartFEN
                     (negb (Options_int (Options s) "UCI_Chess960" =? 0))) [])
      as L.
    pose proof (setup_moves_path (tokens inp2)
                  (Position_set StartFEN
                     (negb (Options_int (Options s) "UCI_Chess960" =? 0))) [])
      as P.
    destruct (position_moves _ [] inp2) as [[p' states] inp3].
    rewrite <- L in P. cbn [fst] in P. rewrite app_nil_r in P.
    injection P as -> ->. reflexivity.
  - destruct (String.eqb arg "fen"); [|reflexivity].
    destruct (while_token_ne_fold "moves"
                (fun fen token => fen ++ token ++ " ") inp1 "") as [Hfen Hrest].
    destruct (while_token_ne "moves" _ inp1 "") as [fen inp2].
    cbn [fst snd] in Hfen, Hrest. rewrite <- Hfen, <- Hrest.
    pose proof (position_moves_setup_moves inp2
                  (Position_set fen
                     (negb (Options_int (Options s) "UCI_Chess960" =? 0))) [])
      as L.
    pose proof (setup_moves_path (tokens inp2)
                  (Position_set fen
                     (negb (Options_int (Options s) "UCI_Chess960" =? 0))) [])
      as P.
    destruct (position_moves _ [] inp2) as [[p' states] inp3].
    rewrite <- L in P. cbn [fst] in P. rewrite app_nil_r in P.
    injection P as -> ->. reflexivity.
Qed.

(** X12.  An accepted [position] command leaves in [SetupStates] one state
    for every move it made, the state of the position reached by the last
    move on top, and in the held position the last position reached (the
    position of the FEN if no move was made); the option table, the output
    and the calls made are as before. *)
Theorem position_setup_states `{Collaborators} (s : State) (cmd : string)
  (fen_moves : string * list string) :
  position_command cmd = Some fen_moves ->
  let start := Position_set (fst fen_moves)
                 (negb (Options_int (Options s) "UCI_Chess960" =? 0)) in
  let path := setup_path start (snd fen_moves) in
  command s cmd = set_pos (last path start) (Some (rev (List.map st path))) s.
Proof.
  unfold position_command, command.
  rewrite (tokens_step (istringstream_of cmd)).
  destruct (extract_string (istringstream_of cmd)) as [[token|] inp] eqn:E;
    [|discriminate].
  cbn [token_of].
  destruct (tokens inp) as [|arg rest] eqn:Et; [discriminate|].
  destruct (String.eqb_spec token "position") as [->|_]; [|discriminate].
  cbn [String.eqb Ascii.eqb Bool.eqb orb]. cbv iota.
  rewrite position_state, Et. cbv zeta.
  destruct (String.eqb arg "startpos"); [now intros [= <-]|].
  destruct (String.eqb arg "fen"); [now intros [= <-] | discriminate].
Qed.

(** "position startpos moves e2e4": one move made, one state. *)
Lemma position_setup_states_witness :
  position_command "position startpos moves e2e4" = Some (StartFEN, ["e2e4"])
  /\ (SetupStates (command demo_init "position startpos moves e2e4")
      : option (list DemoPosition))
     = Some [Moved (Setup StartFEN false) demo_e2e4].
Proof.
  assert (E : position_command "position startpos moves e2e4"
              = Some (StartFEN, ["e2e4"])) by (vm_compute; reflexivity).
  split; [exact E|].
  rewrite (position_setup_states demo_init _ _ E). vm_compute. reflexivity.
Defined.

(** X13.  A [position] line whose second token is neither "startpos" nor
    "fen", or that has no second token, is ignored without a word: the
    state is left exactly as it was. *)
Theorem position_unrecognised `{Collaborators} (s : State) (cmd : string)
  (inp : istringstream) :
  extract_string (istringstream_of cmd) = (Some "position", inp) ->
  match tokens inp with
  | [] => True
  | arg :: _ => arg <> "startpos" /\ arg <> "fen"
  end ->
  command s cmd = s.
Proof.
  intros E Harg. unfold command. rewrite E.
  cbn [token_of String.eqb Ascii.eqb Bool.eqb orb]. cbv iota.
  rewrite position_state. cbv zeta.
  destruct (tokens inp) as [|arg rest]; [reflexivity|].
  destruct Harg as [H1 H2].
  destruct (String.eqb_spec arg "startpos"); [contradiction|].
  destruct (String.eqb_spec arg "fen"); [contradiction | reflexivity].
Qed.

(** "position foo" does nothing. *)
Lemma position_unrecognised_witness :
  command demo_init "position foo" = demo_init.
Proof.
  assert (E : extract_string (istringstream_of "position foo")
              = (Some "position", mk_stream " foo" false)) by reflexivity.
  assert (Harg : match tokens (mk_stream " foo" false) with
                 | [] => True
                 | arg :: _ => arg <> "startpos" /\ arg <> "fen"
                 end) by (vm_compute; split; discriminate).
  exact (position_unrecognised demo_init _ _ E Harg).
Defined.

(** ** The dispatch on the first word *)

(** X14.  A line whose first word is none of the command words, and a line
    with no word at all, is answered with "Unknown command: " and the whole
    line as it came; the rest of the state is as before. *)
Theorem command_unknown `{Collaborators} (s : State) (cmd : string) :
  match tokens (istringstream_of cmd) with
  | [] => True
  | word :: _ => ~ In word command_words
  end ->
  command s cmd = print ("Unknown command: " ++ cmd) s.
Proof.
  rewrite tokens_step. unfold command.
  destruct (extract_string (istringstream_of cmd)) as [[token|] inp];
    cbn [token_of]; [|reflexivity].
  intros Hw.
  repeat match goal with
         | |- context [String.eqb token ?w] =>
             destruct (String.eqb_spec token w) as [->|_];
             [exfalso; apply Hw; cbv; tauto|]
         end.
  reflexivity.
Qed.

(** "hello world" is no command. *)
Lemma command_unknown_witness :
  command demo_init "hello world"
  = print "Unknown command: hello world" demo_init.
Proof.
  assert (Hw : match tokens (istringstream_of "hello world") with
               | [] => True
               | word :: _ => ~ In word command_words
               end) by (vm_compute; intuition discriminate).
  exact (command_unknown demo_init "hello world" Hw).
Defined.

(** X15.  The commands that take no argument look at their word only: what
    follows the word on the line, and the white space before it, changes
    nothing. *)
Theorem command_ignores_rest `{Collaborators} (s : State) (cmd word : string)
  (inp : istringstream) :
  extract_string (istringstream_of cmd) = (Some word, inp) ->
  In word plain_command_words ->
  command s cmd = command s word.
Proof.
  intros E Hw. unfold command at 1. rewrite E. cbn [token_of].
  unfold plain_command_words in Hw. cbn [In] in Hw.
  repeat (destruct Hw as [<- | Hw]; [reflexivity|]). contradiction.
Qed.

(** "isready" with something after it. *)
Lemma command_ignores_rest_witness :
  command demo_init "  isready now" = command demo_init "isready".
Proof.
  assert (E : extract_string (istringstream_of "  isready now")
              = (Some "isready", mk_stream " now" false)) by reflexivity.
  assert (Hw : In "isready" plain_command_words) by (cbv; tauto).
  exact (command_ignores_rest demo_init _ _ _ E Hw).
Defined.

(** ** Numbers that are numbers on the line of [go] *)

Lemma read_word_split (s : string) :
  s = fst (read_word s) ++ snd (read_word s)
  /\ match snd (read_word s) with
     | EmptyString => True
     | String a _ => isspace a = true
     end.
Proof.
  induction s as [|c s [IH1 IH2]]; [now split|]. cbn [read_word].
  destruct (isspace c) eqn:Ec; [now split|].
  destruct (read_word s) as [w r]. cbn [fst snd append] in *.
  split; [now f_equal | exact IH2].
Qed.

Lemma read_digits_all (d r : string) :
  forallb is_digit (chars d) = true ->
  match r with
  | EmptyString => True
  | String a _ => is_digit a = false
  end ->
  read_digits (d ++ r) = (d, r).
Proof.
  intros Hd Hr. induction d as [|c d IH]; cbn [append].
  - destruct r as [|a r]; [reflexivity|]. cbn [read_digits]. now rewrite Hr.
  - cbn [chars forallb] in Hd. apply andb_true_iff in Hd as [Hc Hd].
    cbn [read_digits]. rewrite Hc, (IH Hd). reflexivity.
Qed.

Lemma isspace_not_digit (a : ascii) : isspace a = true -> is_digit a = false.
Proof.
  unfold isspace, is_digit. intros H.
  destruct (Z.leb_spec 48 (Z_of_ascii a)), (Z.leb_spec (Z_of_ascii a) 57);
    try reflexivity.
  exfalso. apply orb_true_iff in H as [H | H].
  - apply Z.eqb_eq in H. lia.
  - apply andb_true_iff in H as [_ H]. apply Z.leb_le in H. lia.
Qed.

(** [is >> n] on a stream whose next token is an integer reads the value of
    that token, and leaves the stream where [is >> token] would. *)
Lemma extract_int_literal (inp inp1 : istringstream) (w : string) :
  extract_string inp = (Some w, inp1) ->
  is_int_literal w = true ->
  extract_int inp = (Some (int_literal_value w), inp1).
Proof.
  unfold extract_string, extract_int. destruct (fail inp); [discriminate|].
  destruct (skipws (rdbuf inp)) as [|c r] eqn:Es; [discriminate|].
  pose proof (skipws_head _ _ _ Es) as Hc.
  destruct (read_word_split r) as [Hr Hrest].
  cbn [read_word]. rewrite Hc.
  destruct (read_word r) as [w' rest]. cbn [fst snd] in Hr, Hrest.
  intros [= <- <-]. unfold is_int_literal, int_literal_value.
  intros Hlit.
  apply andb_true_iff in Hlit as [Hlit Hmax].
  apply andb_true_iff in Hlit as [Hlit Hmin].
  apply andb_true_iff in Hlit as [Hne Hdig].
  assert (Hd : match rest with
               | EmptyString => True
               | String a _ => is_digit a = false
               end)
    by (destruct rest; [exact I | now apply isspace_not_digit]).
  assert (Hb : read_digits
                 (if (Ascii.eqb c "-" || Ascii.eqb c "+")%bool
                  then r else String c r)
               = (if (Ascii.eqb c "-" || Ascii.eqb c "+")%bool
                  then w' else String c w', rest)).
  { destruct (Ascii.eqb c "-" || Ascii.eqb c "+")%bool.
    - rewrite Hr. now apply read_digits_all.
    - rewrite Hr. change (String c (w' ++ rest)) with (String c w' ++ rest).
      now apply read_digits_all. }
  rewrite Hb. clear Hb.
  destruct (if (Ascii.eqb c "-" || Ascii.eqb c "+")%bool
            then w' else String c w') as [|d ds] eqn:Ed; [discriminate Hne|].
  apply Z.leb_le in Hmin, Hmax.
  destruct (Z.gtb_spec (if Ascii.eqb c "-"
                        then - decimal_value 0 (String d ds)
                        else decimal_value 0 (String d ds)) INT_MAX); [lia|].
  destruct (Z.ltb_spec (if Ascii.eqb c "-"
                        then - decimal_value 0 (String d ds)
                        else decimal_value 0 (String d ds)) INT_MIN); [lia|].
  reflexivity.
Qed.

Lemma extract_int_nothing (inp inp1 : istringstream) :
  extract_string inp = (None, inp1) -> extract_int inp = (None, inp1).
Proof.
  unfold extract_string, extract_int.
  destruct (fail inp); [now intros [= <-]|].
  destruct (skipws (rdbuf inp)) as [|c r] eqn:Es; [now intros [= <-]|].
  destruct (read_word _); discriminate.
Qed.

(** The keyword table of [go] is the one of the specification, and each
    keyword writes its own field. *)
Lemma numeric_keyword_spec (token : string) :
  match numeric_keyword token with
  | Some f =>
      is_number_word token = true
      /\ forall v l, set_field f v l = limits_with_number token v l
  | None => is_number_word token = false
  end.
Proof.
  unfold numeric_keyword, is_number_word, go_number_words. cbn [existsb].
  repeat match goal with
         | |- context [String.eqb token ?w] =>
             destruct (String.eqb_spec token w) as [->|_];
             [split; [reflexivity | intros v []; reflexivity]|]
         end.
  reflexivity.
Qed.

Lemma flag_keyword_spec (token : string) (l : LimitsType) :
  (if String.eqb token "infinite" then set_infinite true l
   else if String.eqb token "ponder" then set_ponder true l
   else l)
  = limits_with_flag token l.
Proof.
  unfold limits_with_flag.
  destruct (String.eqb_spec token "infinite") as [->|_].
  - destruct l. cbn. now rewrite orb_true_r, orb_false_r.
  - destruct (String.eqb_spec token "ponder") as [->|_].
    + destruct l. cbn. now rewrite orb_true_r, orb_false_r.
    + destruct l. cbn. now rewrite !orb_false_r.
Qed.

Lemma searchmoves_spec `{PositionAPI} (pos : Position) (toks : list string) :
  forall l,
    fold_left (fun l t => push_back_searchmove (fst (to_move pos t)) l) toks l
    = limits_with_moves (List.map (fun t => fst (to_move pos t)) toks) l.
Proof.
  induction toks as [|t toks IH]; intros l; cbn [fold_left List.map].
  - destruct l. unfold limits_with_moves. cbn. now rewrite app_nil_r.
  - rewrite IH. destruct l. unfold limits_with_moves, push_back_searchmove.
    cbn. now rewrite <- app_assoc.
Qed.

Lemma go_loop_go_tokens `{PositionAPI} (pos : Position) (inp : istringstream) :
  (forall limits,
      numbers_well_formed (tokens inp) = true ->
      fst (go_loop pos inp limits) = go_tokens pos (tokens inp) limits)
  /\ (forall token inp1,
         extract_string inp = (Some token, inp1) ->
         forall limits,
           numbers_well_formed (tokens inp1) = true ->
           fst (go_loop pos inp1 limits) = go_tokens pos (tokens inp1) limits).
Proof.
  induction inp as [inp IH] using stream_ind.
  split; [|intros token inp1 E; exact (proj1 (IH token inp1 E))].
  intros limits. rewrite go_loop_step, (tokens_step inp).
  destruct (extract_string inp) as [[token|] inp1] eqn:E; [|reflexivity].
  destruct (IH token inp1 eq_refl) as [IH1 IH2].
  cbn [numbers_well_formed go_tokens]. unfold go_token.
  destruct (String.eqb token "searchmoves").
  - intros _.
    destruct (while_token_fold
                (fun l t => push_back_searchmove (fst (to_move pos t)) l)
                inp1 limits) as [Hfold Hfail].
    rewrite (go_loop_of_failed pos _ _ Hfail), Hfold.
    apply searchmoves_spec.
  - pose proof (numeric_keyword_spec token) as K.
    destruct (numeric_keyword token) as [f|].
    + destruct K as [K1 K2]. rewrite K1.
      unfold extract_field. rewrite (tokens_step inp1).
      destruct (extract_string inp1) as [[number|] inp2] eqn:E2.
      * intros Hwf. apply andb_true_iff in Hwf as [Hlit Hwf].
        rewrite (extract_int_literal _ _ _ E2 Hlit). cbn [fst snd].
        rewrite K2. now apply (IH2 number inp2 eq_refl).
      * intros _. rewrite (extract_int_nothing _ _ E2). cbn [fst snd].
        apply extract_string_fail_after in E2.
        now rewrite (go_loop_of_failed pos _ _ E2).
    + rewrite K. intros Hwf. rewrite <- flag_keyword_spec.
      destruct (String.eqb token "infinite"); [now apply IH1|].
      destruct (String.eqb token "ponder"); now apply IH1.
Qed.

(** X16.  On a [go] line where every keyword that introduces a number is
    followed by an integer, the search is started with the held position,
    the stack of states, and the limits that the line describes token by
    token: each number in the field of its keyword (the last one if a
    keyword comes twice), each flag set, every token after "searchmoves"
    as a move, and unknown tokens skipped. *)
Theorem go_well_formed `{Collaborators} (s : State) (cmd : string)
  (inp : istringstream) :
  extract_string (istringstream_of cmd) = (Some "go", inp) ->
  numbers_well_formed (tokens inp) = true ->
  calls (command s cmd)
  = (calls s
     ++ [Threads_start_thinking (pos s)
           (go_tokens (pos s) (tokens inp) LimitsType_init)
           (SetupStates s)])%list.
Proof.
  intros E Hwf. unfold command. rewrite E.
  cbn [token_of String.eqb Ascii.eqb Bool.eqb orb]. cbv iota.
  unfold go.
  pose proof (proj1 (go_loop_go_tokens (pos s) inp) LimitsType_init Hwf) as L.
  destruct (go_loop (pos s) inp LimitsType_init) as [limits inp1].
  cbn [fst] in L. subst limits. reflexivity.
Qed.

(** "go wtime 1000 binc 20 depth 5 infinite": White's time, Black's
    increment, the depth and the flag, and nothing else. *)
Lemma go_well_formed_witness :
  calls (command demo_init "go wtime 1000 binc 20 depth 5 infinite")
  = (calls demo_init
     ++ [Threads_start_thinking (pos demo_init)
           {| searchmoves := [];
              time_WHITE := 1000; time_BLACK := 0;
              inc_WHITE := 0; inc_BLACK := 20;
              movestogo := 0; depth := 5; nodes := 0; movetime := 0;
              mate := 0; infinite := true; ponder := false |}
           (SetupStates demo_init)])%list.
Proof.
  assert (E : extract_string
                (istringstream_of "go wtime 1000 binc 20 depth 5 infinite")
              = (Some "go", mk_stream " wtime 1000 binc 20 depth 5 infinite" false))
    by reflexivity.
  assert (Hwf : numbers_well_formed
                  (tokens (mk_stream " wtime 1000 binc 20 depth 5 infinite" false))
                = true) by (vm_compute; reflexivity).
  assert (G : go_tokens (pos demo_init)
                (tokens (mk_stream " wtime 1000 binc 20 depth 5 infinite" false))
                LimitsType_init
              = {| searchmoves := [];
                   time_WHITE := 1000; time_BLACK := 0;
                   inc_WHITE := 0; inc_BLACK := 20;
                   movestogo := 0; depth := 5; nodes := 0; movetime := 0;
                   mate := 0; infinite := true; ponder := false |})
    by (vm_compute; reflexivity).
  pose proof (go_well_formed demo_init _ _ E Hwf) as T.
  rewrite G in T. exact T.
Defined.

(** ** The line that [perft] builds for the benchmark *)

Lemma skipws_word (w rest : string) :
  w <> "" -> no_space w -> skipws (w ++ rest) = w ++ rest.
Proof.
  intros Hne Hw. destruct w as [|c w]; [contradiction|].
  cbn [append skipws]. now rewrite (Hw c (or_introl eq_refl)).
Qed.

Lemma read_word_word (w rest : string) :
  no_space w ->
  match rest with
  | EmptyString => True
  | String a _ => isspace a = true
  end ->
  read_word (w ++ rest) = (w, rest).
Proof.
  intros Hw Hrest. induction w as [|c w IH]; cbn [append].
  - destruct rest as [|a r]; [reflexivity|]. cbn [read_word]. now rewrite Hrest.
  - cbn [read_word]. rewrite (Hw c (or_introl eq_refl)).
    rewrite IH; [reflexivity|]. intros a Ha. apply Hw. now right.
Qed.

(** [is >> token] on a stream that starts with a word. *)
Lemma extract_string_word (w rest : string) :
  w <> "" -> no_space w ->
  match rest with
  | EmptyString => True
  | String a _ => isspace a = true
  end ->
  extract_string (mk_stream (w ++ rest) false) = (Some w, mk_stream rest false).
Proof.
  intros Hne Hw Hrest. unfold extract_string. cbn [fail rdbuf].
  rewrite (skipws_word w rest Hne Hw).
  destruct (w ++ rest) as [|c r] eqn:E.
  - destruct w; [contradiction | discriminate E].
  - rewrite <- E, (read_word_word w rest Hw Hrest). reflexivity.
Qed.

Lemma string_of_int_word (z : Z) :
  string_of_int z <> "" /\ no_space (string_of_int z).
Proof.
  split.
  - unfold string_of_int, NilZero.string_of_int.
    destruct (Z.to_int z) as [d|d].
    + unfold NilZero.string_of_uint. destruct d; discriminate.
    + discriminate.
  - intros c Hc. destruct (string_of_int_chars z c Hc) as [Hd | ->].
    + destruct (isspace c) eqn:Es; [|reflexivity].
      apply isspace_not_digit in Es. congruence.
    + reflexivity.
Qed.

Lemma tokens_word (w rest : string) :
  w <> "" -> no_space w ->
  tokens (mk_stream (w ++ String " " rest) false)
  = w :: tokens (mk_stream (String " " rest) false).
Proof.
  intros Hne Hw. rewrite tokens_step, extract_string_word; trivial.
Qed.

Lemma tokens_leading_space (text : string) :
  tokens (mk_stream (String " " text) false) = tokens (mk_stream text false).
Proof. now rewrite !(tokens_step (mk_stream _ false)). Qed.

(** X17.  On a [perft] line with an integer, the benchmark is called with
    the held position and a line of five fields: the Hash option and the
    Threads option as numbers, the depth of the line in plain decimal
    notation, "current" and "perft". *)
Theorem perft_fields `{Collaborators} (s : State) (cmd number : string)
  (inp inp1 : istringstream) :
  extract_string (istringstream_of cmd) = (Some "perft", inp) ->
  extract_string inp = (Some number, inp1) ->
  is_int_literal number = true ->
  exists ss,
    command s cmd = call (benchmark (pos s) (Some ss)) s
    /\ tokens ss = [string_of_int (Options_int (Options s) "Hash");
                    string_of_int (Options_int (Options s) "Threads");
                    string_of_int (int_literal_value number);
                    "current"; "perft"].
Proof.
  intros E E1 Hlit. unfold command. rewrite E.
  cbn [token_of String.eqb Ascii.eqb Bool.eqb orb]. cbv iota.
  rewrite (extract_int_literal _ _ _ E1 Hlit).
  eexists. split; [reflexivity|]. unfold istringstream_of.
  destruct (string_of_int_word (Options_int (Options s) "Hash")) as [A1 A2].
  destruct (string_of_int_word (Options_int (Options s) "Threads")) as [B1 B2].
  destruct (string_of_int_word (int_literal_value number)) as [D1 D2].
  cbn [append].
  rewrite (tokens_word _ _ A1 A2), tokens_leading_space.
  rewrite (tokens_word _ _ B1 B2), tokens_leading_space.
  rewrite (tokens_word _ _ D1 D2).
  reflexivity.
Qed.

(** "perft 5" with the options of the example. *)
Lemma perft_fields_witness :
  exists ss,
    command demo_init "perft 5"
    = call (benchmark (pos demo_init) (Some ss)) demo_init
    /\ tokens ss = [string_of_int (Options_int (Options demo_init) "Hash");
                    string_of_int (Options_int (Options demo_init) "Threads");
                    string_of_int (int_literal_value "5");
                    "current"; "perft"].
Proof.
  assert (E : extract_string (istringstream_of "perft 5")
              = (Some "perft", mk_stream " 5" false)) by reflexivity.
  assert (E1 : extract_string (mk_stream " 5" false)
               = (Some "5", mk_stream "" false)) by reflexivity.
  assert (Hlit : is_int_literal "5" = true) by reflexivity.
  exact (perft_fields demo_init _ _ _ _ E E1 Hlit).
Defined.

(** ** The keys in hexadecimal *)





(** ** Examples

    The scenarios of the specification, run on the example engine. *)

(** "position startpos moves e2e4 e7e5", then "go depth 1": the search gets
    the position after two plies, limits with nothing but the depth set, and
    a stack of two states. *)
Example position_then_go :
  match calls (run demo_init [Line "position startpos moves e2e4 e7e5";
                              Line "go depth 1"]) with
  | [Threads_start_thinking p limits (Some states)] =>
      (p : DemoPosition)
      = Moved (Moved (Setup StartFEN false) demo_e2e4) (make_move 52 36)
      /\ limits = set_field f_depth 1 LimitsType_init
      /\ (states : list DemoPosition)
         = [Moved (Moved (Setup StartFEN false) demo_e2e4) (make_move 52 36);
            Moved (Setup StartFEN false) demo_e2e4]
  | _ => False
  end.
Proof. vm_compute. tauto. Qed.

(** Setting an option twice is the same as setting it once. *)
Example setoption_twice :
  Options (run demo_init [Line "setoption name Hash value 128";
                          Line "setoption name Hash value 128"])
  = [("Hash", "128"); ("Threads", "1"); ("UCI_Chess960", "false")].
Proof. vm_compute. reflexivity. Qed.

(** A pawn that takes on d8 and becomes a queen: "exd8=Q+" and "e7d8q";
    and "e7d8Q" is read as that move, the caller's string being lowered. *)
Example promotion_notation :
  let pos := Setup "3r3k/4P3/8/8/8/8/8/4K3 w - - 0 1" false in
  let m := make PROMOTION 52 59 QUEEN in
  In m (demo_legal_moves pos)
  /\ fst (@move_to_san demo_position_api pos m) = "exd8=Q+"
  /\ format_move m false = "e7d8q"
  /\ @to_move demo_position_api pos "e7d8Q" = (m, "e7d8q").
Proof. vm_compute. tauto. Qed.

(** A rook that mates on the back rank: "Ra8#". *)
Example mate_notation :
  fst (@move_to_san demo_position_api
         (Setup "6k1/5ppp/8/8/8/8/8/R3K3 w - - 0 1" false) (make_move 0 56))
  = "Ra8#".
Proof. vm_compute. reflexivity. Qed.

(** Three queens that can go to d4: the one on a4 shares its rank with one
    of the others and its file with the other, so the whole square is
    written; the one on h4 shares only its rank, so its file is. *)
Example queens_notation :
  let pos := Setup "6k1/8/8/8/Q6Q/8/8/Q3K3 w - - 0 1" false in
  fst (@move_to_san demo_position_api pos (make_move 24 27)) = "Qa4d4"
  /\ fst (@move_to_san demo_position_api pos (make_move 31 27)) = "Qhd4"
  /\ fst (@move_to_san demo_position_api pos (make_move 0 27)) = "Q1d4".
Proof. vm_compute. tauto. Qed.

(** The answers to "isready" and to a line that is no command. *)
Example command_answers :
  cout (run demo_init [Line "isready"; Line "hello world"])
  = "readyok" ++ endl ++ "Unknown command: hello world" ++ endl.
Proof. vm_compute. reflexivity. Qed.
